(** * Session caches of the [dsess] package

    A shallow embedding of [SessionCache] and [DatabaseCache]
    (the [package dsess] part of the source, lines 400-722): the per-session
    caches that sit in front of table, index, view and database resolution.

    Go maps are modelled by stdpp's [gmap]; a map-typed struct field is an
    [option (gmap _ _)], with [None] for Go's nil map (which reads as an
    empty map, has length 0, ranges over nothing, and panics on assignment).
    Every method takes the receiver's state and returns the new state; the
    mutex only serialises whole method bodies, so each method is one atomic
    state transformer.  Cached values are kept as given (a slice or a handle
    is stored, not copied); the model holds them as values. *)

From Stdlib Require Import NArith Ascii String.
From stdpp Require Import base decidable countable option list strings gmap fin_maps.

Open Scope string_scope.
Open Scope nat_scope.

(** ** Keys *)

(** [hash.Hash] is a 20-byte array; it is kept as the 160-bit number its
    bytes spell.  Only equality of hashes is ever used. *)
Definition Hash : Type := N.

(** [doltdb.DataCacheKey]: a struct wrapping one hash; Go compares it
    field by field. *)
Record DataCacheKey : Type := mkDataCacheKey { key_hash : Hash }.

Lemma DataCacheKey_cancel (k : DataCacheKey) :
  mkDataCacheKey (key_hash k) = k.
Proof. by destruct k. Qed.

#[global] Instance DataCacheKey_eq_dec : EqDecision DataCacheKey.
Proof. solve_decision. Defined.

#[global] Instance DataCacheKey_countable : Countable DataCacheKey :=
  inj_countable' key_hash mkDataCacheKey DataCacheKey_cancel.

(** [revisionDbCacheKey]: the two-string key of the revision database map. *)
Record revisionDbCacheKey : Type := mkRevisionDbCacheKey {
  dbName : string;
  requestedName : string
}.

Lemma revisionDbCacheKey_cancel (k : revisionDbCacheKey) :
  (λ p : string * string, mkRevisionDbCacheKey p.1 p.2)
    (dbName k, requestedName k) = k.
Proof. by destruct k. Qed.

#[global] Instance revisionDbCacheKey_eq_dec : EqDecision revisionDbCacheKey.
Proof. solve_decision. Defined.

#[global] Instance revisionDbCacheKey_countable : Countable revisionDbCacheKey :=
  inj_countable' (λ k, (dbName k, requestedName k))
                 (λ p, mkRevisionDbCacheKey p.1 p.2)
                 revisionDbCacheKey_cancel.

(** [sessionVarCacheKey]: the fingerprint (root, head) kept per database. *)
Record sessionVarCacheKey : Type := mkSessionVarCacheKey {
  root : DataCacheKey;
  head : string
}.

#[global] Instance sessionVarCacheKey_eq_dec : EqDecision sessionVarCacheKey.
Proof. solve_decision. Defined.

Definition maxCachedKeys : nat := 64.

(** ** Collaborators declared outside the source file *)

(** Modelled from the spec: [sql.ViewDefinition] is declared in the SQL
    engine, not here.  The spec gives it a name and a query text; the cache
    reads only [Name]. *)
Record ViewDefinition : Type := mkViewDefinition {
  Name : string;
  TextDefinition : string
}.

(** The zero value [sql.ViewDefinition{}]. *)
Definition ViewDefinition_zero : ViewDefinition := mkViewDefinition "" "".

(** The [SqlDatabase] interface, as far as the cache calls it. *)
Class SqlDatabase (D : Type) : Type := {
  RevisionQualifiedName : D → string;
  RequestedName : D → string
}.

(** [branchState] and the [dbState] it points to: the two fields read by
    [CacheSessionVars]. *)
Record DatabaseSessionState : Type := mkDatabaseSessionState {
  dbs_dbName : string
}.

Record branchState : Type := mkBranchState {
  dbState : DatabaseSessionState;
  bs_head : string
}.

(** [DoltTransaction], seen through its one method used here. *)
Record DoltTransaction : Type := mkDoltTransaction {
  GetInitialRoot : string → Hash * bool
}.

(** ** Go's built-in map operations *)

Section GoMap.
Context {K : Type} `{Countable K} {V : Type}.

(** [for k := range m { delete(m, k) }]: one [delete] per key present
    when the loop starts. *)
Definition range_delete (m : gmap K V) : gmap K V :=
  foldr (λ kv acc, delete kv.1 acc) m (map_to_list m).

(** [if m == nil { m = make(map...) }] *)
Definition make_if_nil (m : option (gmap K V)) : gmap K V :=
  match m with
  | Some m' => m'
  | None => ∅
  end.

(** The two views below are used to state what the inlined code of the
    caching methods amounts to; the methods themselves are written out
    as in the source.

    [evict m]: the map after the capacity check
    [if len(m) > maxCachedKeys { for k := range m { delete(m, k) } }]. *)
Definition evict (m : gmap K V) : gmap K V :=
  if decide (maxCachedKeys < size m) then ∅ else m.
End GoMap.

(** [put2 m k f]: capacity check, then the inner map under [k] (a new
    one when there is none) updated by [f]. *)
Definition put2 {K : Type} `{Countable K} {V : Type}
    (m : gmap K (gmap string V)) (k : K)
    (f : gmap string V → gmap string V) : gmap K (gmap string V) :=
  <[k := f (default ∅ (evict m !! k))]> (evict m).

(** [put2_all m es]: one [put2] per element of [es], in order. *)
Definition put2_all {K : Type} `{Countable K} {V : Type}
    (m : gmap K (gmap string V))
    (es : list (K * (gmap string V → gmap string V))) : gmap K (gmap string V) :=
  foldl (λ acc e, put2 acc e.1 e.2) m es.

(** [put1 m k v]: capacity check, then [m[k] = v] (the one-level map of
    [CacheRevisionDb]); [put1_all] repeats it. *)
Definition put1 {K : Type} `{Countable K} {V : Type}
    (m : gmap K V) (k : K) (v : V) : gmap K V :=
  <[k := v]> (evict m).

Definition put1_all {K : Type} `{Countable K} {V : Type}
    (m : gmap K V) (es : list (K * V)) : gmap K V :=
  foldl (λ acc e, put1 acc e.1 e.2) m es.

(** [get2 m k n]: the entry under the outer key [k] and the inner key
    [n] of a two-level map that may be nil. *)
Definition get2 {K : Type} `{Countable K} {V : Type}
    (m : option (gmap K (gmap string V))) (k : K) (n : string) : option V :=
  (m ≫= (.!! k)) ≫= (.!! n).

(** [v, ok := m[k]]: the value or the zero value, and whether it was
    present. *)
Definition comma_ok {V : Type} (zero : V) (o : option V) : V * bool :=
  match o with
  | Some v => (v, true)
  | None => (zero, false)
  end.

(** ** Go's [strings.ToLower] on ASCII text

    The caches are stated for an arbitrary [ToLower : string → string]
    (the standard library's function is not part of this repository);
    [ascii_ToLower] is that function on strings of ASCII bytes, where it
    adds 32 to the bytes from 'A' to 'Z'.  It serves the concrete runs,
    which keep to ASCII names: on a byte from 128 on it returns its input,
    where Go lower-cases runes and turns a byte that is not UTF-8 into
    U+FFFD, so on such names it is not Go's function. *)
Definition ascii_lower (a : ascii) : ascii :=
  let n := N_of_ascii a in
  if (65 <=? n)%N && (n <=? 90)%N then ascii_of_N (n + 32) else a.

Fixpoint ascii_ToLower (s : string) : string :=
  match s with
  | EmptyString => EmptyString
  | String a r => String (ascii_lower a) (ascii_ToLower r)
  end.

(** ** Sample data for the concrete runs *)

Definition sample_key (i : nat) : DataCacheKey := mkDataCacheKey (N.of_nat i).

(** Names of two lower-case ASCII letters, "aa", "ab", ..., distinct for
    the numbers below 676. *)
Definition sample_name (i : nat) : string :=
  String (ascii_of_nat (97 + i / 26)) (String (ascii_of_nat (97 + i mod 26)) "").

(** All bytes of a name are ASCII, where [ascii_ToLower] is Go's
    [strings.ToLower]. *)
Fixpoint ascii_only (s : string) : bool :=
  match s with
  | EmptyString => true
  | String a r => (N_of_ascii a <? 128)%N && ascii_only r
  end.

Definition sample_index_entries (n : nat)
    : list (DataCacheKey * string * list nat) :=
  (λ i, (sample_key i, "t", [i])) <$> seq 1 n.

Definition sample_table_entries (n : nat)
    : list (DataCacheKey * string * option nat) :=
  (λ i, (sample_key i, "T", Some i)) <$> seq 1 n.

Definition sample_view : ViewDefinition := mkViewDefinition "V" "select 1".

Definition sample_view_entries (n : nat)
    : list (DataCacheKey * list ViewDefinition) :=
  (λ i, (sample_key i, [sample_view])) <$> seq 1 n.

(** A database handle that is just its two names. *)
#[global] Instance named_database : SqlDatabase (string * string) :=
  {| RevisionQualifiedName := fst; RequestedName := snd |}.

(** * Branch actions (package [actions])

    The branch operations are orchestration over other packages: refs,
    the commit database, the repo state, branch control.  What they call
    is gathered in the class [Dolt] and taken as given; the functions are
    written out as in the source.  One value of [World] stands for all the
    state behind [ctx], [dbData], [dEnv] and the remote provider: calls
    that only read take it, calls that write return the next one together
    with Go's [error] result, [None] for nil. *)

(** ** Errors *)

(** Go [error] values: the sentinels of this package and of the packages
    it compares against, values made by [fmt.Errorf], errors that wrap
    another one, and any other error of a collaborator. *)
Inductive error : Type :=
| ErrAlreadyExists
| ErrCOBranchDelete
| ErrUnmergedBranch
| ErrWorkingSetsOnBothBranches
| ErrBranchNotFound
| ErrInvBranchName
| ErrInvHash
| ErrHashNotFound
| ErrUpToDate
| ErrIsAhead
| ErrWorkingSetUnsupported
| Errorf (text : string)
| Wrapping (text : string) (inner : error)
| Foreign (id : N).

#[global] Instance error_eq_dec : EqDecision error.
Proof. solve_decision. Defined.

(** [errors.Is]: [err] or one of the errors it wraps is [target]. *)
Fixpoint errors_Is (err target : error) : bool :=
  bool_decide (err = target) ||
  match err with
  | Wrapping _ inner => errors_Is inner target
  | _ => false
  end.

(** A result [(value, err)] whose value is read only when [err] is nil. *)
Inductive result (A : Type) : Type :=
| Ok (a : A)
| Err (e : error).
Arguments Ok {A} a.
Arguments Err {A} e.

Record DeleteOptions : Type := mkDeleteOptions {
  Force : bool;
  Remote : bool
}.

(** [env.BranchConfig], of which the remote name is read. *)
Record BranchConfig : Type := mkBranchConfig {
  bc_Remote : string
}.

(** ** What the actions call *)

Class Dolt : Type := {
  World : Type;
  DoltRef : Type;
  WorkingSetRef : Type;
  CommitSpec : Type;
  Commit : Type;
  EnvRemote : Type;
  DoltDB : Type;
  ReplicationStatusController : Type;
  (* package ref *)
  NewBranchRef : string → DoltRef;
  NewRemoteRefFromPathStr : string → result DoltRef;
  ref_Equals : DoltRef → DoltRef → bool;
  GetPath : DoltRef → string;
  WorkingSetRefForHead : DoltRef → result WorkingSetRef;
  (* package doltdb; [Ddb] is the local database handle *)
  Ddb : DoltDB;
  IsValidUserBranchName : string → bool;
  NewCommitSpec : string → option CommitSpec * option error;
  IsNotACommit : error → bool;
  HasRef : World → DoltRef → result bool;
  Resolve : World → DoltDB → option CommitSpec → option DoltRef → result Commit;
  CanFastForwardTo : World → Commit → Commit → result bool;
  NewBranchAtCommit :
    World → DoltRef → Commit → option ReplicationStatusController →
    World * option error;
  CopyWorkingSet :
    World → WorkingSetRef → WorkingSetRef → bool → World * option error;
  DeleteWorkingSet : World → WorkingSetRef → World * option error;
  ddb_DeleteBranch :
    World → DoltRef → option ReplicationStatusController → World * option error;
  (* package env *)
  CWBHeadRef : World → result DoltRef;
  SetCWBHeadRef : World → DoltRef → World * option error;
  GetBranches : World → result (gmap string BranchConfig);
  GetRemotes : World → result (gmap string EnvRemote);
  GetRemoteDB : World → EnvRemote → bool → result DoltDB;
  (* package branch_control *)
  AddAdminForContext : World → string → World * option error;
  (* the [Error()] text of an error, as [%v] prints it *)
  Error : error → string
}.

Section Actions.
Context `{Dolt}.

Definition CopyBranchOnDB (w : World) (oldBranch newBranch : string)
    (force : bool) (rsc : option ReplicationStatusController)
    : World * option error :=
  let oldRef := NewBranchRef oldBranch in
  let newRef := NewBranchRef newBranch in
  match HasRef w oldRef with
  | Err oldErr => (w, Some oldErr)
  | Ok hasOld =>
    match HasRef w newRef with
    | Err newErr => (w, Some newErr)
    | Ok hasNew =>
      if negb hasOld then (w, Some ErrBranchNotFound)
      else if negb force && hasNew then (w, Some ErrAlreadyExists)
      else if negb (IsValidUserBranchName newBranch) then (w, Some ErrInvBranchName)
      else
        (* [cs, _ := doltdb.NewCommitSpec(oldBranch)]: the error is dropped *)
        let '(cs, _) := NewCommitSpec oldBranch in
        match Resolve w Ddb cs None with
        | Err err => (w, Some err)
        | Ok cm => NewBranchAtCommit w newRef cm rsc
        end
    end
  end.

Definition CopyBranch (w : World) (oldBranch newBranch : string) (force : bool)
    : World * option error :=
  CopyBranchOnDB w oldBranch newBranch force None.

(** Returns an error if the given branch is not fully merged into the
    HEAD of the current branch. *)
Definition validateBranchMergedIntoCurrentWorkingBranch (w : World)
    (branch : DoltRef) : option error :=
  let '(branchSpec, err) := NewCommitSpec (GetPath branch) in
  match err with
  | Some err => Some err
  | None =>
    match Resolve w Ddb branchSpec None with
    | Err err => Some err
    | Ok branchHead =>
      let '(cwbCs, err) := NewCommitSpec "HEAD" in
      match err with
      | Some err => Some err
      | None =>
        match CWBHeadRef w with
        | Err err => Some err
        | Ok headRef =>
          match Resolve w Ddb cwbCs (Some headRef) with
          | Err err => Some err
          | Ok cwbHead =>
            match CanFastForwardTo w branchHead cwbHead with
            | Err err =>
              if errors_Is err ErrUpToDate then None
              else if errors_Is err ErrIsAhead then Some ErrUnmergedBranch
              else Some err
            | Ok isMerged =>
              if negb isMerged then Some ErrUnmergedBranch else None
            end
          end
        end
      end
    end
  end.

(** Returns an error if the branch provided is not fully merged into its
    upstream. *)
Definition validateBranchMergedIntoUpstream (w : World) (branch : DoltRef)
    (remoteName : string) : option error :=
  match GetRemotes w with
  | Err err => Some err
  | Ok remotes =>
    match remotes !! remoteName with
    | None => Some (Errorf ("remote " +:+ remoteName +:+ " not found"))
    | Some remote =>
      match GetRemoteDB w remote false with
      | Err err => Some err
      | Ok remoteDb =>
        let '(cs, err) := NewCommitSpec (GetPath branch) in
        match err with
        | Some err => Some err
        | None =>
          match Resolve w remoteDb cs None with
          | Err err => Some err
          | Ok remoteBranchHead =>
            match Resolve w Ddb cs None with
            | Err err => Some err
            | Ok localBranchHead =>
              match CanFastForwardTo w localBranchHead remoteBranchHead with
              | Err err =>
                if errors_Is err ErrUpToDate then None
                else if errors_Is err ErrIsAhead then Some ErrUnmergedBranch
                else Some err
              | Ok canFF =>
                if negb canFF then Some ErrUnmergedBranch else None
              end
            end
          end
        end
      end
    end
  end.

Definition DeleteBranchOnDB (w : World) (branchRef : DoltRef)
    (opts : DeleteOptions) (rsc : option ReplicationStatusController)
    : World * option error :=
  match HasRef w branchRef with
  | Err err => (w, Some err)
  | Ok hasRef =>
    if negb hasRef then (w, Some ErrBranchNotFound)
    else
      let merged :=
        if negb (Force opts) && negb (Remote opts) then
          (* check to see if the branch is fully merged into its parent *)
          match GetBranches w with
          | Err err => Some err
          | Ok trackedBranches =>
            match trackedBranches !! GetPath branchRef with
            | Some trackedBranch =>
              validateBranchMergedIntoUpstream w branchRef (bc_Remote trackedBranch)
            | None => validateBranchMergedIntoCurrentWorkingBranch w branchRef
            end
          end
        else None in
      match merged with
      | Some err => (w, Some err)
      | None =>
        match WorkingSetRefForHead branchRef with
        | Err err =>
          if negb (errors_Is err ErrWorkingSetUnsupported) then (w, Some err)
          else ddb_DeleteBranch w branchRef rsc
        | Ok wsRef =>
          match DeleteWorkingSet w wsRef with
          | (w, Some err) => (w, Some err)
          | (w, None) => ddb_DeleteBranch w branchRef rsc
          end
        end
      end
  end.

Definition DeleteBranch (w : World) (brName : string) (opts : DeleteOptions)
    (rsc : option ReplicationStatusController) : World * option error :=
  if Remote opts then
    match NewRemoteRefFromPathStr brName with
    | Err err => (w, Some err)
    | Ok branchRef => DeleteBranchOnDB w branchRef opts rsc
    end
  else
    let branchRef := NewBranchRef brName in
    match CWBHeadRef w with
    | Err err => (w, Some err)
    | Ok headRef =>
      if ref_Equals headRef branchRef then (w, Some ErrCOBranchDelete)
      else DeleteBranchOnDB w branchRef opts rsc
    end.

Definition RenameBranch (w : World) (oldBranch newBranch : string)
    (force : bool) (rsc : option ReplicationStatusController)
    : World * option error :=
  let oldRef := NewBranchRef oldBranch in
  let newRef := NewBranchRef newBranch in
  match CopyBranchOnDB w oldBranch newBranch force rsc with
  | (w, Some err) => (w, Some err)
  | (w, None) =>
    match CWBHeadRef w with
    | Err err => (w, Some err)
    | Ok headRef =>
      let '(w, err) :=
        if ref_Equals headRef oldRef then SetCWBHeadRef w newRef else (w, None) in
      match err with
      | Some err => (w, Some err)
      | None =>
        let '(w, err) :=
          match WorkingSetRefForHead oldRef with
          | Err err =>
            if negb (errors_Is err ErrWorkingSetUnsupported) then (w, Some err)
            else (w, None)
          | Ok fromWSRef =>
            match WorkingSetRefForHead newRef with
            | Err err => (w, Some err)
            | Ok toWSRef => CopyWorkingSet w fromWSRef toWSRef true
            end
          end in
        match err with
        | Some err => (w, Some err)
        | None =>
          DeleteBranch w oldBranch {| Force := true; Remote := false |} rsc
        end
      end
    end
  end.

Definition CreateBranchOnDB (w : World) (newBranch startingPoint : string)
    (force : bool) (headRef : option DoltRef)
    (rsc : option ReplicationStatusController) : World * option error :=
  let branchRef := NewBranchRef newBranch in
  match HasRef w branchRef with
  | Err err => (w, Some err)
  | Ok hasRef =>
    if negb force && hasRef then (w, Some ErrAlreadyExists)
    else if negb (IsValidUserBranchName newBranch) then (w, Some ErrInvBranchName)
    else
      let '(cs, err) := NewCommitSpec startingPoint in
      match err with
      | Some err => (w, Some err)
      | None =>
        match Resolve w Ddb cs headRef with
        | Err err => (w, Some err)
        | Ok cm =>
          match NewBranchAtCommit w branchRef cm rsc with
          | (w, Some err) => (w, Some err)
          | (w, None) => (w, None)
          end
        end
      end
  end.

Definition createBranch (w : World) (newBranch startingPoint : string)
    (force : bool) (rsc : option ReplicationStatusController)
    : World * option error :=
  match CWBHeadRef w with
  | Err err => (w, Some err)
  | Ok headRef => CreateBranchOnDB w newBranch startingPoint force (Some headRef) rsc
  end.

Definition CreateBranchWithStartPt (w : World) (newBranch startPt : string)
    (force : bool) (rsc : option ReplicationStatusController)
    : World * option error :=
  match createBranch w newBranch startPt force rsc with
  | (w, Some err) =>
    if bool_decide (err = ErrAlreadyExists) then
      (w, Some (Errorf ("fatal: A branch named '" +:+ newBranch +:+ "' already exists.")))
    else if bool_decide (err = ErrInvBranchName) then
      (w, Some (Errorf ("fatal: '" +:+ newBranch +:+ "' is an invalid branch name.")))
    else if bool_decide (err = ErrInvHash) || IsNotACommit err then
      (w, Some (Errorf ("fatal: '" +:+ startPt +:+ "' is not a commit and a branch '"
                        +:+ newBranch +:+ "' cannot be created from it")))
    else
      (w, Some (Errorf ("fatal: Unexpected error creating branch '" +:+ newBranch
                        +:+ "' : " +:+ Error err)))
  | (w, None) =>
    match AddAdminForContext w newBranch with
    | (w, Some err) => (w, Some err)
    | (w, None) => (w, None)
    end
  end.

Definition IsBranchOnDB (w : World) (str : string) : result bool :=
  let dref := NewBranchRef str in
  HasRef w dref.

Definition IsBranch (w : World) (str : string) : result bool :=
  IsBranchOnDB w str.

(** The commit is Go's [*doltdb.Commit]: [None] is nil. *)
Definition MaybeGetCommit (w : World) (str : string)
    : option Commit * option error :=
  let '(cs, err) := NewCommitSpec str in
  match err with
  | None =>
    match CWBHeadRef w with
    | Err err => (None, Some err)
    | Ok headRef =>
      match Resolve w Ddb cs (Some headRef) with
      | Ok cm => (Some cm, None)
      | Err err =>
        if errors_Is err ErrBranchNotFound then (None, None)
        else if bool_decide (err = ErrHashNotFound)
                || bool_decide (err = ErrBranchNotFound) then (None, None)
        else (None, Some err)
      end
    end
  | Some _ => (None, None)
  end.

End Actions.

(** ** A small world for the concrete runs

    Branches are names pointing at numbered commits, locally and on the
    one remote "origin"; a commit fast-forwards to a later number; one
    branch is checked out; no branch tracks an upstream.  It only serves to
    run the actions on examples. *)
Record TestWorld : Type := mkTestWorld {
  tw_branches : gmap string nat;
  tw_remote_branches : gmap string nat;
  tw_head : string;
  tw_working_sets : gset string;
  tw_admins : list string
}.

(** The database handle is [true] for the local database and [false] for
    the remote one. *)
Definition test_Resolve (w : TestWorld) (db : bool) (cs : option string)
    (cwb : option string) : result nat :=
  match cs with
  | None => Err ErrInvHash
  | Some spec =>
    let name := if bool_decide (spec = "HEAD") then default "" cwb else spec in
    match (if db then tw_branches w else tw_remote_branches w) !! name with
    | Some cm => Ok cm
    | None => Err ErrBranchNotFound
    end
  end.

Definition test_set_branches (w : TestWorld) (bs : gmap string nat) : TestWorld :=
  {| tw_branches := bs; tw_remote_branches := tw_remote_branches w;
     tw_head := tw_head w; tw_working_sets := tw_working_sets w;
     tw_admins := tw_admins w |}.

Definition test_set_head (w : TestWorld) (h : string) : TestWorld :=
  {| tw_branches := tw_branches w; tw_remote_branches := tw_remote_branches w;
     tw_head := h; tw_working_sets := tw_working_sets w;
     tw_admins := tw_admins w |}.

Definition test_set_working_sets (w : TestWorld) (ws : gset string) : TestWorld :=
  {| tw_branches := tw_branches w; tw_remote_branches := tw_remote_branches w;
     tw_head := tw_head w; tw_working_sets := ws;
     tw_admins := tw_admins w |}.

Definition test_set_admins (w : TestWorld) (admins : list string) : TestWorld :=
  {| tw_branches := tw_branches w; tw_remote_branches := tw_remote_branches w;
     tw_head := tw_head w; tw_working_sets := tw_working_sets w;
     tw_admins := admins |}.

Definition test_dolt : Dolt :=
  {| World := TestWorld;
     DoltRef := string;
     WorkingSetRef := string;
     CommitSpec := string;
     Commit := nat;
     EnvRemote := unit;
     DoltDB := bool;
     ReplicationStatusController := unit;
     NewBranchRef := λ name, name;
     NewRemoteRefFromPathStr := λ path, Ok path;
     ref_Equals := λ a b, bool_decide (a = b);
     GetPath := λ r, r;
     WorkingSetRefForHead := λ r, Ok r;
     Ddb := true;
     IsValidUserBranchName := λ name, negb (bool_decide (name = ""));
     NewCommitSpec := λ s,
       if bool_decide (s = "") then (None, Some ErrInvHash) else (Some s, None);
     IsNotACommit := λ _, false;
     HasRef := λ w r, Ok (bool_decide (is_Some (tw_branches w !! r)));
     Resolve := test_Resolve;
     CanFastForwardTo := λ _ a b,
       if bool_decide (a = b) then Err (Wrapping "fast forward" ErrUpToDate)
       else Ok (a <? b);
     NewBranchAtCommit := λ w r cm _,
       (test_set_branches w (<[r := cm]> (tw_branches w)), None);
     CopyWorkingSet := λ w _ to _,
       (test_set_working_sets w ({[to]} ∪ tw_working_sets w), None);
     DeleteWorkingSet := λ w r,
       (test_set_working_sets w (tw_working_sets w ∖ {[r]}), None);
     ddb_DeleteBranch := λ w r _,
       (test_set_branches w (delete r (tw_branches w)), None);
     CWBHeadRef := λ w, Ok (tw_head w);
     SetCWBHeadRef := λ w r, (test_set_head w r, None);
     GetBranches := λ _, Ok ∅;
     GetRemotes := λ _, Ok {["origin" := tt]};
     GetRemoteDB := λ _ _ _, Ok false;
     AddAdminForContext := λ w name, (test_set_admins w (name :: tw_admins w), None);
     Error := λ _, "error" |}.

(** Locally: "main" at commit 2, checked out; "feature" at commit 3, ahead
    of it; "old" at commit 1, merged.  On the remote: "feature" at 3 and
    "old" at 2. *)
Definition test_world : TestWorld :=
  {| tw_branches := <["main" := 2]> (<["feature" := 3]> {["old" := 1]});
     tw_remote_branches := <["feature" := 3]> {["old" := 2]};
     tw_head := "main";
     tw_working_sets := {["main"]};
     tw_admins := [] |}.

Section Dsess.
Variable ToLower : string → string.

(** [sql.Index] and [sql.Table] are interfaces of the SQL engine; their
    implementations are opaque here.  A [sql.Table] value may be the nil
    interface, hence [option Table]. *)
Context {Index Table : Type}.

(** *** SessionCache *)

Record SessionCache : Type := mkSessionCache {
  indexes : option (gmap DataCacheKey (gmap string (list Index)));
  tables : option (gmap DataCacheKey (gmap string (option Table)));
  views : option (gmap DataCacheKey (gmap string ViewDefinition))
}.

Definition newSessionCache : SessionCache :=
  {| indexes := None; tables := None; views := None |}.

(** In the three caching methods the inner map found (or made and
    stored) under [key] is the very object the outer map points to, so
    the final assignment into it is an update of the outer entry. *)
Definition CacheTableIndexes (c : SessionCache) (key : DataCacheKey)
    (table : string) (idx : list Index) : SessionCache :=
  let table := ToLower table in
  let m := make_if_nil (indexes c) in
  let m := if decide (maxCachedKeys < size m) then range_delete m else m in
  let '(tableIndexes, m) :=
    match m !! key with
    | Some found => (found, m)
    | None => (∅, <[key := ∅]> m)
    end in
  let tableIndexes := <[table := idx]> tableIndexes in
  {| indexes := Some (<[key := tableIndexes]> m);
     tables := tables c;
     views := views c |}.

Definition GetTableIndexesCache (c : SessionCache) (key : DataCacheKey)
    (table : string) : list Index * bool :=
  match indexes c with
  | None => ([], false)
  | Some m =>
    match m !! key with
    | None => ([], false)
    | Some tableIndexes =>
      let table := ToLower table in
      comma_ok [] (tableIndexes !! table)
    end
  end.

Definition CacheTable (c : SessionCache) (key : DataCacheKey)
    (tableName : string) (table : option Table) : SessionCache :=
  let tableName := ToLower tableName in
  let m := make_if_nil (tables c) in
  let m := if decide (maxCachedKeys < size m) then range_delete m else m in
  let '(tablesForKey, m) :=
    match m !! key with
    | Some found => (found, m)
    | None => (∅, <[key := ∅]> m)
    end in
  let tablesForKey := <[tableName := table]> tablesForKey in
  {| indexes := indexes c;
     tables := Some (<[key := tablesForKey]> m);
     views := views c |}.

(** Ranging over a nil map does nothing and leaves it nil. *)
Definition ClearTableCache (c : SessionCache) : SessionCache :=
  {| indexes := indexes c;
     tables := range_delete <$> tables c;
     views := views c |}.

Definition GetCachedTable (c : SessionCache) (key : DataCacheKey)
    (tableName : string) : option Table * bool :=
  let tableName := ToLower tableName in
  match tables c with
  | None => (None, false)
  | Some m =>
    match m !! key with
    | None => (None, false)
    | Some tablesForKey => comma_ok None (tablesForKey !! tableName)
    end
  end.

(** The loop [for i := range views] of [CacheViews]: later views
    overwrite earlier ones of the same lower-cased name. *)
Definition store_views (viewsForKey : gmap string ViewDefinition)
    (vs : list ViewDefinition) : gmap string ViewDefinition :=
  foldl (λ acc v, let viewName := ToLower (Name v) in <[viewName := v]> acc)
        viewsForKey vs.

Definition CacheViews (c : SessionCache) (key : DataCacheKey)
    (vs : list ViewDefinition) : SessionCache :=
  let m := make_if_nil (views c) in
  let m := if decide (maxCachedKeys < size m) then range_delete m else m in
  let '(viewsForKey, m) :=
    match m !! key with
    | Some found => (found, m)
    | None => (∅, <[key := ∅]> m)
    end in
  let viewsForKey := store_views viewsForKey vs in
  {| indexes := indexes c;
     tables := tables c;
     views := Some (<[key := viewsForKey]> m) |}.

Definition ViewsCached (c : SessionCache) (key : DataCacheKey) : bool :=
  match views c with
  | None => false
  | Some m => (comma_ok ∅ (m !! key)).2
  end.

Definition GetCachedViewDefinition (c : SessionCache) (key : DataCacheKey)
    (viewName : string) : ViewDefinition * bool :=
  let viewName := ToLower viewName in
  match views c with
  | None => (ViewDefinition_zero, false)
  | Some m =>
    match m !! key with
    | None => (ViewDefinition_zero, false)
    | Some viewsForKey => comma_ok ViewDefinition_zero (viewsForKey !! viewName)
    end
  end.

(** *** DatabaseCache *)

(** [InitialDbState] is a struct of the package declared in another
    file; it is opaque here, with its zero value. *)
Context {D : Type} `{SqlDatabase D}.
Context {InitialDbState : Type} (InitialDbState_zero : InitialDbState).

Record DatabaseCache : Type := mkDatabaseCache {
  revisionDbs : option (gmap revisionDbCacheKey D);
  initialDbStates : option (gmap DataCacheKey (gmap string InitialDbState));
  sessionVars : option (gmap string sessionVarCacheKey)
}.

Definition newDatabaseCache : DatabaseCache :=
  {| revisionDbs := None; initialDbStates := None; sessionVars := Some ∅ |}.

(** The result is Go's interface value: [None] is nil. *)
Definition GetCachedRevisionDb (c : DatabaseCache) (revisionDbName : string)
    (requestedName : string) : option D * bool :=
  match revisionDbs c with
  | None => (None, false)
  | Some m =>
    comma_ok None
      (Some <$> m !! {| dbName := revisionDbName; requestedName := requestedName |})
  end.

(** [database] is a non-nil interface value: the method calls on it
    would panic otherwise. *)
Definition CacheRevisionDb (c : DatabaseCache) (database : D) : DatabaseCache :=
  let m := make_if_nil (revisionDbs c) in
  let m := if decide (maxCachedKeys < size m) then range_delete m else m in
  {| revisionDbs :=
       Some (<[ {| dbName := ToLower (RevisionQualifiedName database);
                   requestedName := RequestedName database |} := database ]> m);
     initialDbStates := initialDbStates c;
     sessionVars := sessionVars c |}.

(** The key [CacheRevisionDb] stores [database] under. *)
Definition revisionDbKey (database : D) : revisionDbCacheKey :=
  {| dbName := ToLower (RevisionQualifiedName database);
     requestedName := RequestedName database |}.

Definition GetCachedInitialDbState (c : DatabaseCache) (key : DataCacheKey)
    (revisionDbName : string) : InitialDbState * bool :=
  match initialDbStates c with
  | None => (InitialDbState_zero, false)
  | Some m =>
    match m !! key with
    | None => (InitialDbState_zero, false)
    | Some dbsForKey => comma_ok InitialDbState_zero (dbsForKey !! revisionDbName)
    end
  end.

Definition CacheInitialDbState (c : DatabaseCache) (key : DataCacheKey)
    (revisionDbName : string) (state : InitialDbState) : DatabaseCache :=
  let m := make_if_nil (initialDbStates c) in
  let m := if decide (maxCachedKeys < size m) then range_delete m else m in
  let '(dbsForKey, m) :=
    match m !! key with
    | Some found => (found, m)
    | None => (∅, <[key := ∅]> m)
    end in
  let dbsForKey := <[revisionDbName := state]> dbsForKey in
  {| revisionDbs := revisionDbs c;
     initialDbStates := Some (<[key := dbsForKey]> m);
     sessionVars := sessionVars c |}.

Definition sessionVarCacheKey_zero : sessionVarCacheKey :=
  {| root := mkDataCacheKey 0%N; head := "" |}.

(** The result is [None] when the method panics: the assignment
    [c.sessionVars[dbBaseName] = newKey] into a nil map.  Reading a nil
    map is fine and finds nothing. *)
Definition CacheSessionVars (c : DatabaseCache) (bs : branchState)
    (transaction : DoltTransaction) : option (DatabaseCache * bool) :=
  let dbBaseName := dbs_dbName (dbState bs) in
  let '(existingKey, found) :=
    comma_ok sessionVarCacheKey_zero (sessionVars c ≫= (.!! dbBaseName)) in
  let '(rt, hasRoot) := GetInitialRoot transaction dbBaseName in
  if negb hasRoot then Some (c, true)
  else
    let newKey := {| root := mkDataCacheKey rt; head := bs_head bs |} in
    match sessionVars c with
    | None => None
    | Some sv =>
      Some ({| revisionDbs := revisionDbs c;
               initialDbStates := initialDbStates c;
               sessionVars := Some (<[dbBaseName := newKey]> sv) |},
            negb found || negb (bool_decide (existingKey = newKey)))
    end.

Definition Clear (c : DatabaseCache) : DatabaseCache :=
  {| revisionDbs := Some ∅; initialDbStates := Some ∅; sessionVars := Some ∅ |}.

(** *** Histories of mutating calls

    The lookups change nothing, so a history of a cache is the list of
    its mutating calls. *)

Inductive SessionOp : Type :=
| OpCacheTableIndexes (key : DataCacheKey) (table : string) (idx : list Index)
| OpCacheTable (key : DataCacheKey) (tableName : string) (table : option Table)
| OpClearTableCache
| OpCacheViews (key : DataCacheKey) (vs : list ViewDefinition).

Definition session_step (c : SessionCache) (op : SessionOp) : SessionCache :=
  match op with
  | OpCacheTableIndexes key table idx => CacheTableIndexes c key table idx
  | OpCacheTable key tableName table => CacheTable c key tableName table
  | OpClearTableCache => ClearTableCache c
  | OpCacheViews key vs => CacheViews c key vs
  end.

Definition session_run (c : SessionCache) (ops : list SessionOp) : SessionCache :=
  foldl session_step c ops.

Inductive DatabaseOp : Type :=
| OpCacheRevisionDb (database : D)
| OpCacheInitialDbState (key : DataCacheKey) (revisionDbName : string)
                        (state : InitialDbState)
| OpCacheSessionVars (bs : branchState) (transaction : DoltTransaction)
| OpClear.

(** [None]: the call panicked. *)
Definition database_step (c : DatabaseCache) (op : DatabaseOp)
    : option DatabaseCache :=
  match op with
  | OpCacheRevisionDb database => Some (CacheRevisionDb c database)
  | OpCacheInitialDbState key n state => Some (CacheInitialDbState c key n state)
  | OpCacheSessionVars bs transaction => fst <$> CacheSessionVars c bs transaction
  | OpClear => Some (Clear c)
  end.

Fixpoint database_run (c : DatabaseCache) (ops : list DatabaseOp)
    : option DatabaseCache :=
  match ops with
  | [] => Some c
  | op :: rest => database_step c op ≫= λ c', database_run c' rest
  end.

(** [kept P c ops]: every call of the history [ops], at the state it is
    made in, satisfies [P]. *)
Fixpoint kept (P : SessionCache → SessionOp → Prop) (c : SessionCache)
    (ops : list SessionOp) : Prop :=
  match ops with
  | [] => True
  | op :: rest => P c op ∧ kept P (session_step c op) rest
  end.

(** A call spares the index entry [(k, n)]: it neither flushes the index
    map nor stores again under that key and (lower-cased) name. *)
Definition spares_index (k : DataCacheKey) (n : string) (c : SessionCache)
    (op : SessionOp) : Prop :=
  match op with
  | OpCacheTableIndexes k' n' _ =>
    size (make_if_nil (indexes c)) ≤ maxCachedKeys ∧
    (k' = k → ToLower n' ≠ ToLower n)
  | _ => True
  end.

Definition spares_table (k : DataCacheKey) (n : string) (c : SessionCache)
    (op : SessionOp) : Prop :=
  match op with
  | OpCacheTable k' n' _ =>
    size (make_if_nil (tables c)) ≤ maxCachedKeys ∧
    (k' = k → ToLower n' ≠ ToLower n)
  | OpClearTableCache => False
  | _ => True
  end.

Definition spares_view (k : DataCacheKey) (n : string) (c : SessionCache)
    (op : SessionOp) : Prop :=
  match op with
  | OpCacheViews k' vs =>
    size (make_if_nil (views c)) ≤ maxCachedKeys ∧
    (k' = k → Forall (λ v, ToLower (Name v) ≠ ToLower n) vs)
  | _ => True
  end.

(** A call that does not flush the view map. *)
Definition no_view_flush (c : SessionCache) (op : SessionOp) : Prop :=
  match op with
  | OpCacheViews _ _ => size (make_if_nil (views c)) ≤ maxCachedKeys
  | _ => True
  end.

(** A call other than [CacheViews] with key [k]. *)
Definition not_CacheViews_of (k : DataCacheKey) (op : SessionOp) : Prop :=
  match op with
  | OpCacheViews k' _ => k' ≠ k
  | _ => True
  end.

#[global] Instance spares_index_dec k n c op : Decision (spares_index k n c op).
Proof. destruct op; simpl; apply _. Defined.
#[global] Instance spares_table_dec k n c op : Decision (spares_table k n c op).
Proof. destruct op; simpl; apply _. Defined.
#[global] Instance spares_view_dec k n c op : Decision (spares_view k n c op).
Proof. destruct op; simpl; apply _. Defined.
#[global] Instance no_view_flush_dec c op : Decision (no_view_flush c op).
Proof. destruct op; simpl; apply _. Defined.
#[global] Instance not_CacheViews_of_dec k op : Decision (not_CacheViews_of k op).
Proof. destruct op; simpl; apply _. Defined.

#[global] Instance kept_dec (P : SessionCache → SessionOp → Prop)
    `{!∀ c op, Decision (P c op)} c ops : Decision (kept P c ops).
Proof. revert c. induction ops as [|op ops IH]; intros c; simpl; apply _. Defined.

(** The capacity invariants. *)
Definition session_bounded (c : SessionCache) : Prop :=
  size (make_if_nil (indexes c)) ≤ S maxCachedKeys ∧
  size (make_if_nil (tables c)) ≤ S maxCachedKeys ∧
  size (make_if_nil (views c)) ≤ S maxCachedKeys.

Definition database_bounded (c : DatabaseCache) : Prop :=
  size (make_if_nil (revisionDbs c)) ≤ S maxCachedKeys ∧
  size (make_if_nil (initialDbStates c)) ≤ S maxCachedKeys.

(** Histories that store under the keys of a list, one call per key. *)
Definition index_ops (es : list (DataCacheKey * string * list Index))
    : list SessionOp :=
  (λ e, OpCacheTableIndexes e.1.1 e.1.2 e.2) <$> es.

Definition table_ops (es : list (DataCacheKey * string * option Table))
    : list SessionOp :=
  (λ e, OpCacheTable e.1.1 e.1.2 e.2) <$> es.

Definition view_ops (es : list (DataCacheKey * list ViewDefinition))
    : list SessionOp :=
  (λ e, OpCacheViews e.1 e.2) <$> es.

Definition revision_ops (dbs : list D) : list DatabaseOp :=
  OpCacheRevisionDb <$> dbs.

Definition state_ops (es : list (DataCacheKey * string * InitialDbState))
    : list DatabaseOp :=
  (λ e, OpCacheInitialDbState e.1.1 e.1.2 e.2) <$> es.

Definition session_var_ops (calls : list (branchState * DoltTransaction))
    : list DatabaseOp :=
  (λ e, OpCacheSessionVars e.1 e.2) <$> calls.

(** The fingerprint a [CacheSessionVars] call builds. *)
Definition fingerprint_of (e : branchState * DoltTransaction) : sessionVarCacheKey :=
  {| root := mkDataCacheKey (GetInitialRoot e.2 (dbs_dbName (dbState e.1))).1;
     head := bs_head e.1 |}.

(** Histories that store several names under one snapshot key. *)
Definition index_ops_at (k : DataCacheKey) (es : list (string * list Index))
    : list SessionOp :=
  (λ e, OpCacheTableIndexes k e.1 e.2) <$> es.

Definition table_ops_at (k : DataCacheKey) (es : list (string * option Table))
    : list SessionOp :=
  (λ e, OpCacheTable k e.1 e.2) <$> es.

(** Which map a mutating call writes. *)
Definition writes_indexes (op : SessionOp) : bool :=
  match op with
  | OpCacheTableIndexes _ _ _ => true
  | _ => false
  end.

Definition writes_tables (op : SessionOp) : bool :=
  match op with
  | OpCacheTable _ _ _ | OpClearTableCache => true
  | _ => false
  end.

Definition writes_views (op : SessionOp) : bool :=
  match op with
  | OpCacheViews _ _ => true
  | _ => false
  end.

Definition writes_revisionDbs (op : DatabaseOp) : bool :=
  match op with
  | OpCacheRevisionDb _ | OpClear => true
  | _ => false
  end.

Definition writes_initialDbStates (op : DatabaseOp) : bool :=
  match op with
  | OpCacheInitialDbState _ _ _ | OpClear => true
  | _ => false
  end.

Definition writes_sessionVars (op : DatabaseOp) : bool :=
  match op with
  | OpCacheSessionVars _ _ | OpClear => true
  | _ => false
  end.

(** ** Facts about the map operations *)

Section GoMapFacts.
Context {K : Type} `{Countable K} {V : Type}.
Implicit Types m : gmap K V.

Lemma lookup_foldr_delete (l : list (K * V)) m (i : K) :
  foldr (λ kv acc, delete kv.1 acc) m l !! i =
  if decide (i ∈ l.*1) then None else m !! i.
Proof.
  induction l as [|[k v] l IH].
  - change (([] : list (K * V)).*1) with ([] : list K).
    cbn [foldr]. case_decide as Hin; [by apply elem_of_nil in Hin|done].
  - change (((k, v) :: l).*1) with (k :: l.*1). cbn [foldr fst].
    destruct (decide (k = i)) as [->|Hne].
    + rewrite lookup_delete_eq. rewrite decide_True; [done|by left].
    + rewrite lookup_delete_ne by done. rewrite IH.
      destruct (decide (i ∈ l.*1)) as [Hin|Hin].
      * rewrite decide_True; [done|by right].
      * rewrite decide_False; [done|].
        intros [?|?]%elem_of_cons; [congruence|done].
Qed.

Lemma range_delete_empty m : range_delete m = ∅.
Proof.
  apply map_eq; intros i. unfold range_delete.
  rewrite lookup_foldr_delete, lookup_empty.
  destruct (decide (i ∈ (map_to_list m).*1)) as [|Hni]; [done|].
  destruct (m !! i) as [v|] eqn:Hi; [|done].
  exfalso; apply Hni. apply list_elem_of_fmap. exists (i, v).
  split; [done|]. by apply elem_of_map_to_list.
Qed.

Lemma capacity_check m :
  (if decide (maxCachedKeys < size m) then range_delete m else m) = evict m.
Proof. unfold evict. case_decide; [apply range_delete_empty|done]. Qed.

Lemma evict_small m : size m ≤ maxCachedKeys → evict m = m.
Proof. intros. unfold evict. case_decide; [lia|done]. Qed.

Lemma evict_big m : maxCachedKeys < size m → evict m = ∅.
Proof. intros. unfold evict. case_decide; [done|lia]. Qed.

Lemma size_evict m : size (evict m) ≤ maxCachedKeys.
Proof.
  unfold evict. case_decide; [rewrite map_size_empty|]; unfold maxCachedKeys in *; lia.
Qed.

Lemma size_insert_le m (k : K) (v : V) : size (<[k := v]> m) ≤ S (size m).
Proof.
  destruct (m !! k) eqn:Hk.
  - rewrite map_size_insert_Some by eauto. lia.
  - rewrite map_size_insert_None by done. lia.
Qed.

Lemma size_insert_evict m (k : K) (v : V) :
  size (<[k := v]> (evict m)) ≤ S maxCachedKeys.
Proof. pose proof (size_insert_le (evict m) k v). pose proof (size_evict m). lia. Qed.
End GoMapFacts.

Section TwoLevelFacts.
Context {K : Type} `{Countable K} {V : Type}.
Implicit Types m : gmap K (gmap string V).
Implicit Types f : gmap string V → gmap string V.

(** The find-or-make step followed by the write through the shared
    inner map. *)
Lemma put2_inline m (k : K) f :
  (let '(inner, m1) :=
     match evict m !! k with
     | Some found => (found, evict m)
     | None => (∅, <[k := ∅]> (evict m))
     end in
   <[k := f inner]> m1) = put2 m k f.
Proof.
  unfold put2. destruct (evict m !! k); simpl; [done|].
  by rewrite insert_insert_eq.
Qed.

Lemma lookup_put2_eq m (k : K) f :
  put2 m k f !! k = Some (f (default ∅ (evict m !! k))).
Proof. apply lookup_insert_eq. Qed.

Lemma lookup_put2_ne m (k k' : K) f :
  k ≠ k' → put2 m k f !! k' = evict m !! k'.
Proof. intros. unfold put2. by rewrite lookup_insert_ne. Qed.

Lemma put2_big m (k : K) f :
  maxCachedKeys < size m → put2 m k f = {[k := f ∅]}.
Proof. intros. unfold put2. by rewrite evict_big, lookup_empty. Qed.

Lemma put2_small m (k : K) f :
  size m ≤ maxCachedKeys → put2 m k f = <[k := f (default ∅ (m !! k))]> m.
Proof. intros. unfold put2. by rewrite evict_small. Qed.

Lemma size_put2 m (k : K) f : size (put2 m k f) ≤ S maxCachedKeys.
Proof. apply size_insert_evict. Qed.

Lemma get2_make_if_nil (o : option (gmap K (gmap string V))) (k : K) n :
  get2 (Some (make_if_nil o)) k n = get2 o k n.
Proof. destruct o; [done|]. unfold get2; simpl. by rewrite lookup_empty. Qed.

Lemma get2_put2_insert_eq m (k : K) n (v : V) :
  get2 (Some (put2 m k (insert n v))) k n = Some v.
Proof.
  unfold get2; simpl. rewrite lookup_put2_eq; simpl. apply lookup_insert_eq.
Qed.

(** An update [f] of the inner map under [k] that leaves the name [n']
    alone, made without a flush, is not seen at [(k', n')]. *)
Lemma get2_put2_frame m (k k' : K) n' f :
  size m ≤ maxCachedKeys →
  (k = k' → ∀ inner, f inner !! n' = inner !! n') →
  get2 (Some (put2 m k f)) k' n' = get2 (Some m) k' n'.
Proof.
  intros Hsz Hf. unfold get2; simpl. rewrite put2_small by done.
  destruct (decide (k = k')) as [<-|Hne].
  - rewrite lookup_insert_eq; simpl. rewrite Hf by done.
    destruct (m !! k); simpl; [done|apply lookup_empty].
  - by rewrite lookup_insert_ne.
Qed.

End TwoLevelFacts.

(** ** What the caching methods amount to *)

Lemma CacheTableIndexes_put2 c key table idx :
  CacheTableIndexes c key table idx =
  {| indexes := Some (put2 (make_if_nil (indexes c)) key (insert (ToLower table) idx));
     tables := tables c; views := views c |}.
Proof.
  unfold CacheTableIndexes. rewrite capacity_check.
  rewrite <- (put2_inline _ key (insert (ToLower table) idx)).
  by destruct (evict (make_if_nil (indexes c)) !! key).
Qed.

Lemma CacheTable_put2 c key tableName table :
  CacheTable c key tableName table =
  {| indexes := indexes c;
     tables := Some (put2 (make_if_nil (tables c)) key (insert (ToLower tableName) table));
     views := views c |}.
Proof.
  unfold CacheTable. rewrite capacity_check.
  rewrite <- (put2_inline _ key (insert (ToLower tableName) table)).
  by destruct (evict (make_if_nil (tables c)) !! key).
Qed.

Lemma CacheViews_put2 c key vs :
  CacheViews c key vs =
  {| indexes := indexes c; tables := tables c;
     views := Some (put2 (make_if_nil (views c)) key (λ inner, store_views inner vs)) |}.
Proof.
  unfold CacheViews. rewrite capacity_check.
  rewrite <- (put2_inline _ key (λ inner, store_views inner vs)).
  by destruct (evict (make_if_nil (views c)) !! key).
Qed.

Lemma CacheInitialDbState_put2 c key n state :
  CacheInitialDbState c key n state =
  {| revisionDbs := revisionDbs c;
     initialDbStates :=
       Some (put2 (make_if_nil (initialDbStates c)) key (insert n state));
     sessionVars := sessionVars c |}.
Proof.
  unfold CacheInitialDbState. rewrite capacity_check.
  rewrite <- (put2_inline _ key (insert n state)).
  by destruct (evict (make_if_nil (initialDbStates c)) !! key).
Qed.

Lemma CacheRevisionDb_insert c database :
  CacheRevisionDb c database =
  {| revisionDbs :=
       Some (<[ {| dbName := ToLower (RevisionQualifiedName database);
                   requestedName := RequestedName database |} := database ]>
             (evict (make_if_nil (revisionDbs c))));
     initialDbStates := initialDbStates c;
     sessionVars := sessionVars c |}.
Proof. unfold CacheRevisionDb. by rewrite capacity_check. Qed.

Lemma GetTableIndexesCache_get2 c key table :
  GetTableIndexesCache c key table =
  comma_ok [] (get2 (indexes c) key (ToLower table)).
Proof.
  unfold GetTableIndexesCache, get2. destruct (indexes c) as [m|]; simpl; [|done].
  by destruct (m !! key).
Qed.

Lemma GetCachedTable_get2 c key tableName :
  GetCachedTable c key tableName =
  comma_ok None (get2 (tables c) key (ToLower tableName)).
Proof.
  unfold GetCachedTable, get2. destruct (tables c) as [m|]; simpl; [|done].
  by destruct (m !! key).
Qed.

Lemma GetCachedViewDefinition_get2 c key viewName :
  GetCachedViewDefinition c key viewName =
  comma_ok ViewDefinition_zero (get2 (views c) key (ToLower viewName)).
Proof.
  unfold GetCachedViewDefinition, get2. destruct (views c) as [m|]; simpl; [|done].
  by destruct (m !! key).
Qed.

Lemma GetCachedInitialDbState_get2 c key n :
  GetCachedInitialDbState c key n =
  comma_ok InitialDbState_zero (get2 (initialDbStates c) key n).
Proof.
  unfold GetCachedInitialDbState, get2.
  destruct (initialDbStates c) as [m|]; simpl; [|done].
  by destruct (m !! key).
Qed.

Lemma ViewsCached_lookup c key :
  ViewsCached c key = bool_decide (is_Some (views c ≫= (.!! key))).
Proof.
  unfold ViewsCached. destruct (views c) as [m|]; simpl.
  - destruct (m !! key); symmetry.
    + apply bool_decide_eq_true_2; eauto.
    + apply bool_decide_eq_false_2. by intros [? ?].
  - done.
Qed.

(** ** The view loop *)

Lemma store_views_app inner vs1 vs2 :
  store_views inner (vs1 ++ vs2) = store_views (store_views inner vs1) vs2.
Proof. apply foldl_app. Qed.

Lemma store_views_lookup_ne inner vs (n' : string) :
  Forall (λ w, ToLower (Name w) ≠ n') vs →
  store_views inner vs !! n' = inner !! n'.
Proof.
  intros Hall. revert inner.
  induction Hall as [|w vs Hw _ IH]; intros inner; [done|].
  cbn [store_views foldl]. fold (store_views (<[ToLower (Name w) := w]> inner) vs).
  rewrite IH. by rewrite lookup_insert_ne.
Qed.

(** The last view of a lower-cased name is the one that stays. *)
Lemma store_views_lookup_last inner vs1 v vs2 :
  Forall (λ w, ToLower (Name w) ≠ ToLower (Name v)) vs2 →
  store_views inner (vs1 ++ v :: vs2) !! ToLower (Name v) = Some v.
Proof.
  intros Hall. rewrite store_views_app.
  change (store_views ?i (v :: vs2))
    with (store_views (<[ToLower (Name v) := v]> i) vs2).
  rewrite store_views_lookup_ne by done. apply lookup_insert_eq.
Qed.

(** ** Entries survive the calls that spare them *)

Lemma spares_index_step k n c op :
  spares_index k n c op →
  get2 (indexes (session_step c op)) k (ToLower n) = get2 (indexes c) k (ToLower n).
Proof.
  destruct op as [k' n' idx| | |]; simpl;
    rewrite ?CacheTableIndexes_put2, ?CacheTable_put2, ?CacheViews_put2; simpl;
    try done.
  intros [Hsz Hne].
  rewrite get2_put2_frame; [apply get2_make_if_nil|done|].
  intros -> inner. rewrite lookup_insert_ne; [done|]. by apply Hne.
Qed.

Lemma spares_table_step k n c op :
  spares_table k n c op →
  get2 (tables (session_step c op)) k (ToLower n) = get2 (tables c) k (ToLower n).
Proof.
  destruct op as [|k' n' t| |]; simpl;
    rewrite ?CacheTableIndexes_put2, ?CacheTable_put2, ?CacheViews_put2; simpl;
    try done.
  intros [Hsz Hne].
  rewrite get2_put2_frame; [apply get2_make_if_nil|done|].
  intros -> inner. rewrite lookup_insert_ne; [done|]. by apply Hne.
Qed.

Lemma spares_view_step k n c op :
  spares_view k n c op →
  get2 (views (session_step c op)) k (ToLower n) = get2 (views c) k (ToLower n).
Proof.
  destruct op as [| | |k' vs]; simpl;
    rewrite ?CacheTableIndexes_put2, ?CacheTable_put2, ?CacheViews_put2; simpl;
    try done.
  intros [Hsz Hne].
  rewrite get2_put2_frame; [apply get2_make_if_nil|done|].
  intros -> inner. apply store_views_lookup_ne. by apply Hne.
Qed.

Lemma kept_run (P : SessionCache → SessionOp → Prop) (Q : SessionCache → Prop) :
  (∀ c op, P c op → Q c → Q (session_step c op)) →
  ∀ ops c, kept P c ops → Q c → Q (session_run c ops).
Proof.
  intros Hstep ops. induction ops as [|op ops IH]; intros c Hk Hq; [done|].
  destruct Hk as [Hp Hk]. simpl. apply IH; [done|]. by apply Hstep.
Qed.

Lemma spares_index_run k n c ops :
  kept (spares_index k n) c ops →
  get2 (indexes (session_run c ops)) k (ToLower n) = get2 (indexes c) k (ToLower n).
Proof.
  intros Hk.
  apply (kept_run (spares_index k n)
           (λ c', get2 (indexes c') k (ToLower n) = get2 (indexes c) k (ToLower n)));
    [|done..].
  intros c' op Hp <-. by apply spares_index_step.
Qed.

Lemma spares_table_run k n c ops :
  kept (spares_table k n) c ops →
  get2 (tables (session_run c ops)) k (ToLower n) = get2 (tables c) k (ToLower n).
Proof.
  intros Hk.
  apply (kept_run (spares_table k n)
           (λ c', get2 (tables c') k (ToLower n) = get2 (tables c) k (ToLower n)));
    [|done..].
  intros c' op Hp <-. by apply spares_table_step.
Qed.

Lemma spares_view_run k n c ops :
  kept (spares_view k n) c ops →
  get2 (views (session_run c ops)) k (ToLower n) = get2 (views c) k (ToLower n).
Proof.
  intros Hk.
  apply (kept_run (spares_view k n)
           (λ c', get2 (views c') k (ToLower n) = get2 (views c) k (ToLower n)));
    [|done..].
  intros c' op Hp <-. by apply spares_view_step.
Qed.

(** What a caching call leaves under its own key and name. *)
Lemma get2_CacheTableIndexes c k n idx :
  get2 (indexes (CacheTableIndexes c k n idx)) k (ToLower n) = Some idx.
Proof. rewrite CacheTableIndexes_put2; simpl. apply get2_put2_insert_eq. Qed.

Lemma get2_CacheTable c k n t :
  get2 (tables (CacheTable c k n t)) k (ToLower n) = Some t.
Proof. rewrite CacheTable_put2; simpl. apply get2_put2_insert_eq. Qed.

Lemma get2_CacheViews c k vs1 v vs2 :
  Forall (λ w, ToLower (Name w) ≠ ToLower (Name v)) vs2 →
  get2 (views (CacheViews c k (vs1 ++ v :: vs2))) k (ToLower (Name v)) = Some v.
Proof.
  intros Hall. rewrite CacheViews_put2; simpl. unfold get2; simpl.
  rewrite lookup_put2_eq; simpl. by apply store_views_lookup_last.
Qed.

(** C1: a lookup with the key and name of an earlier caching call returns
    the value stored by that call together with [true], whatever the
    cache held before and whatever calls came in between, as long as none
    of these flushed or cleared the sub-cache or stored again under the
    same key and name.  For views the value stored under a name is the
    last view of that (lower-cased) name in the list given to
    [CacheViews]. *)
Theorem get_after_cache (c : SessionCache) (k : DataCacheKey) (n : string) :
  (∀ idx ops,
     kept (spares_index k n) (CacheTableIndexes c k n idx) ops →
     GetTableIndexesCache (session_run (CacheTableIndexes c k n idx) ops) k n
     = (idx, true)) ∧
  (∀ t ops,
     kept (spares_table k n) (CacheTable c k n t) ops →
     GetCachedTable (session_run (CacheTable c k n t) ops) k n = (t, true)) ∧
  (∀ vs1 v vs2 ops,
     Name v = n →
     Forall (λ w, ToLower (Name w) ≠ ToLower n) vs2 →
     kept (spares_view k n) (CacheViews c k (vs1 ++ v :: vs2)) ops →
     GetCachedViewDefinition (session_run (CacheViews c k (vs1 ++ v :: vs2)) ops) k n
     = (v, true)).
Proof.
  split; [|split].
  - intros idx ops Hk.
    by rewrite GetTableIndexesCache_get2, spares_index_run, get2_CacheTableIndexes.
  - intros t ops Hk.
    by rewrite GetCachedTable_get2, spares_table_run, get2_CacheTable.
  - intros vs1 v vs2 ops <- Hall Hk.
    by rewrite GetCachedViewDefinition_get2, spares_view_run, get2_CacheViews.
Qed.

(** C3: the name given to a lookup and the name given to the caching
    call need only agree after lower-casing: whenever [ToLower n1 =
    ToLower n2], what was cached under [n1] is found under [n2], for
    indexes, tables and views; the value returned is the one stored, with
    the casing it was stored with. *)
Theorem lookups_case_insensitive (c : SessionCache) (k : DataCacheKey)
    (n1 n2 : string) :
  ToLower n1 = ToLower n2 →
  (∀ idx, GetTableIndexesCache (CacheTableIndexes c k n1 idx) k n2 = (idx, true)) ∧
  (∀ t, GetCachedTable (CacheTable c k n1 t) k n2 = (t, true)) ∧
  (∀ vs1 v vs2,
     Name v = n1 →
     Forall (λ w, ToLower (Name w) ≠ ToLower n1) vs2 →
     GetCachedViewDefinition (CacheViews c k (vs1 ++ v :: vs2)) k n2 = (v, true)).
Proof.
  intros Heq. split; [|split].
  - intros idx.
    by rewrite GetTableIndexesCache_get2, <- Heq, get2_CacheTableIndexes.
  - intros t. by rewrite GetCachedTable_get2, <- Heq, get2_CacheTable.
  - intros vs1 v vs2 <- Hall.
    by rewrite GetCachedViewDefinition_get2, <- Heq, get2_CacheViews.
Qed.

(** ** [ViewsCached] along a history *)

Lemma evict_lookup_None {K : Type} `{Countable K} {V : Type}
    (m : gmap K V) (k : K) :
  m !! k = None → evict m !! k = None.
Proof. intros. unfold evict. case_decide; [apply lookup_empty|done]. Qed.

Lemma views_absent_step k c op :
  not_CacheViews_of k op →
  views c ≫= (.!! k) = None →
  views (session_step c op) ≫= (.!! k) = None.
Proof.
  destruct op as [| | |k' vs]; simpl;
    rewrite ?CacheTableIndexes_put2, ?CacheTable_put2, ?CacheViews_put2; simpl;
    try done.
  intros Hne Hnone. rewrite lookup_put2_ne by done.
  apply evict_lookup_None. by destruct (views c).
Qed.

Lemma views_present_step k c op :
  no_view_flush c op →
  is_Some (views c ≫= (.!! k)) →
  is_Some (views (session_step c op) ≫= (.!! k)).
Proof.
  destruct op as [| | |k' vs]; simpl;
    rewrite ?CacheTableIndexes_put2, ?CacheTable_put2, ?CacheViews_put2; simpl;
    try done.
  intros Hsz Hsome. rewrite put2_small by done.
  destruct (decide (k' = k)) as [->|Hne].
  - rewrite lookup_insert_eq. eauto.
  - rewrite lookup_insert_ne by done.
    destruct (views c); [done|]. by destruct Hsome.
Qed.

Lemma Forall_kept (P : SessionOp → Prop) ops :
  Forall P ops → ∀ c, kept (λ _, P) c ops.
Proof. induction 1; intros c; simpl; auto. Qed.

(** C7: [ViewsCached k] is false on a new cache and stays false along
    any history without a [CacheViews] call for [k]; it is true right
    after [CacheViews c k vs] for any list [vs], the empty one included,
    and stays true along any history that does not flush the view map. *)
Theorem ViewsCached_before_and_after (k : DataCacheKey) :
  (∀ ops,
     Forall (not_CacheViews_of k) ops →
     ViewsCached (session_run newSessionCache ops) k = false) ∧
  (∀ c, ViewsCached (CacheViews c k []) k = true) ∧
  (∀ c vs ops,
     kept no_view_flush (CacheViews c k vs) ops →
     ViewsCached (session_run (CacheViews c k vs) ops) k = true).
Proof.
  assert (Hafter : ∀ c vs, is_Some (views (CacheViews c k vs) ≫= (.!! k))).
  { intros c vs. rewrite CacheViews_put2; simpl. rewrite lookup_put2_eq. eauto. }
  split; [|split].
  - intros ops Hall. rewrite ViewsCached_lookup.
    apply bool_decide_eq_false_2. intros Hsome.
    pose proof (Forall_kept _ _ Hall newSessionCache) as Hk.
    apply (kept_run _ (λ c', views c' ≫= (.!! k) = None)) in Hk.
    + rewrite Hk in Hsome. by destruct Hsome.
    + intros c' op. apply views_absent_step.
    + done.
  - intros c. rewrite ViewsCached_lookup. by apply bool_decide_eq_true_2.
  - intros c vs ops Hk. rewrite ViewsCached_lookup. apply bool_decide_eq_true_2.
    apply (kept_run _ (λ c', is_Some (views c' ≫= (.!! k))) (λ c' op, views_present_step k c' op)
             ops _ Hk).
    apply Hafter.
Qed.

(** ** Filling a map with distinct keys *)

Section FillFacts.
Context {K : Type} `{Countable K} {V : Type}.

(** Up to [maxCachedKeys + 1] distinct new keys go in without a flush. *)
Lemma put2_all_fresh (es : list (K * (gmap string V → gmap string V))) :
  ∀ m0 : gmap K (gmap string V),
    NoDup es.*1 →
    (∀ k, k ∈ es.*1 → m0 !! k = None) →
    size m0 + length es ≤ S maxCachedKeys →
    size (put2_all m0 es) = size m0 + length es ∧
    (∀ k f, (k, f) ∈ es → put2_all m0 es !! k = Some (f ∅)) ∧
    (∀ k, k ∉ es.*1 → put2_all m0 es !! k = m0 !! k).
Proof.
  induction es as [|[k f] es IH]; intros m0 Hnd Hfresh Hsz.
  { split; [simpl; lia|]. split; [|done]. intros k f Hin. by apply elem_of_nil in Hin. }
  change (((k, f) :: es).*1) with (k :: es.*1) in *.
  apply NoDup_cons in Hnd as [Hk Hnd]. simpl in Hsz.
  assert (m0 !! k = None) as Hm0k by (apply Hfresh; left).
  assert (put2 m0 k f = <[k := f ∅]> m0) as Hput.
  { rewrite put2_small by lia. by rewrite Hm0k. }
  change (put2_all m0 ((k, f) :: es)) with (put2_all (put2 m0 k f) es).
  rewrite Hput.
  destruct (IH (<[k := f ∅]> m0)) as (IHsz & IHin & IHout); [done|..].
  { intros k' Hk'. rewrite lookup_insert_ne by (by intros ->).
    apply Hfresh. by right. }
  { rewrite map_size_insert_None by done. lia. }
  split; [|split].
  - rewrite IHsz, map_size_insert_None by done. simpl. lia.
  - intros k' f' [Heq|Hin]%elem_of_cons.
    + injection Heq as -> ->. rewrite IHout by done. apply lookup_insert_eq.
    + by apply IHin.
  - intros k' Hk'. apply not_elem_of_cons in Hk' as [Hne Hk'].
    rewrite IHout by done. by rewrite lookup_insert_ne.
Qed.

Lemma put1_all_fresh (es : list (K * V)) :
  ∀ m0 : gmap K V,
    NoDup es.*1 →
    (∀ k, k ∈ es.*1 → m0 !! k = None) →
    size m0 + length es ≤ S maxCachedKeys →
    size (put1_all m0 es) = size m0 + length es ∧
    (∀ k v, (k, v) ∈ es → put1_all m0 es !! k = Some v) ∧
    (∀ k, k ∉ es.*1 → put1_all m0 es !! k = m0 !! k).
Proof.
  induction es as [|[k v] es IH]; intros m0 Hnd Hfresh Hsz.
  { split; [simpl; lia|]. split; [|done]. intros k v Hin. by apply elem_of_nil in Hin. }
  change (((k, v) :: es).*1) with (k :: es.*1) in *.
  apply NoDup_cons in Hnd as [Hk Hnd]. simpl in Hsz.
  assert (m0 !! k = None) as Hm0k by (apply Hfresh; left).
  change (put1_all m0 ((k, v) :: es)) with (put1_all (put1 m0 k v) es).
  assert (put1 m0 k v = <[k := v]> m0) as Hput.
  { unfold put1. by rewrite evict_small by lia. }
  rewrite Hput.
  destruct (IH (<[k := v]> m0)) as (IHsz & IHin & IHout); [done|..].
  { intros k' Hk'. rewrite lookup_insert_ne by (by intros ->).
    apply Hfresh. by right. }
  { rewrite map_size_insert_None by done. lia. }
  split; [|split].
  - rewrite IHsz, map_size_insert_None by done. simpl. lia.
  - intros k' v' [Heq|Hin]%elem_of_cons.
    + injection Heq as -> ->. rewrite IHout by done. apply lookup_insert_eq.
    + by apply IHin.
  - intros k' Hk'. apply not_elem_of_cons in Hk' as [Hne Hk'].
    rewrite IHout by done. by rewrite lookup_insert_ne.
Qed.
End FillFacts.

Lemma indexes_index_ops es :
  ∀ c, make_if_nil (indexes (session_run c (index_ops es))) =
       put2_all (make_if_nil (indexes c))
                ((λ e, (e.1.1, insert (ToLower e.1.2) e.2)) <$> es).
Proof.
  induction es as [|[[k n] idx] es IH]; intros c; [done|].
  cbn [index_ops fmap list_fmap session_run foldl session_step].
  unfold session_run, index_ops in IH. rewrite IH.
  by rewrite CacheTableIndexes_put2.
Qed.

Lemma tables_table_ops es :
  ∀ c, make_if_nil (tables (session_run c (table_ops es))) =
       put2_all (make_if_nil (tables c))
                ((λ e, (e.1.1, insert (ToLower e.1.2) e.2)) <$> es).
Proof.
  induction es as [|[[k n] t] es IH]; intros c; [done|].
  cbn [table_ops fmap list_fmap session_run foldl session_step].
  unfold session_run, table_ops in IH. rewrite IH.
  by rewrite CacheTable_put2.
Qed.

Lemma views_view_ops es :
  ∀ c, make_if_nil (views (session_run c (view_ops es))) =
       put2_all (make_if_nil (views c))
                ((λ e, (e.1, λ inner, store_views inner e.2)) <$> es).
Proof.
  induction es as [|[k vs] es IH]; intros c; [done|].
  cbn [view_ops fmap list_fmap session_run foldl session_step].
  unfold session_run, view_ops in IH. rewrite IH.
  by rewrite CacheViews_put2.
Qed.

(** Filling an empty two-level map with at most [maxCachedKeys + 1]
    distinct keys keeps every entry; when it then holds
    [maxCachedKeys + 1] keys, the next [put2] leaves its own entry
    only. *)
Lemma fill_then_flush {K : Type} `{Countable K} {V : Type}
    (es : list (K * (gmap string V → gmap string V))) :
  NoDup es.*1 →
  length es ≤ S maxCachedKeys →
  size (put2_all ∅ es) = length es ∧
  (∀ k f, (k, f) ∈ es → put2_all ∅ es !! k = Some (f ∅)) ∧
  (length es = S maxCachedKeys →
   ∀ k' f', put2 (put2_all ∅ es) k' f' = {[k' := f' ∅]}).
Proof.
  intros Hnd Hlen.
  destruct (put2_all_fresh es ∅) as (Hsz & Hin & _); [done|done|..].
  { rewrite map_size_empty. simpl. lia. }
  rewrite map_size_empty in Hsz. simpl in Hsz.
  split; [done|]. split; [done|].
  intros Hfull k' f'. apply put2_big. rewrite Hsz, Hfull. unfold maxCachedKeys. lia.
Qed.

Lemma get2_singleton_ne {K : Type} `{Countable K} {V : Type}
    (k k' : K) (inner : gmap string V) n :
  k ≠ k' → get2 (Some {[k' := inner]}) k n = None.
Proof. intros. unfold get2; simpl. by rewrite lookup_singleton_ne. Qed.

Lemma fmap_fst_entries {A B C : Type} (g : A * B * C → (gmap string C → gmap string C))
    (es : list (A * B * C)) :
  ((λ e, (e.1.1, g e)) <$> es).*1 = es.*1.*1.
Proof. rewrite <- !list_fmap_compose. by apply list_fmap_ext. Qed.

Lemma index_fill (es : list (DataCacheKey * string * list Index)) :
  NoDup es.*1.*1 →
  length es ≤ S maxCachedKeys →
  let c' := session_run newSessionCache (index_ops es) in
  size (make_if_nil (indexes c')) = length es ∧
  (∀ k n idx, (k, n, idx) ∈ es → get2 (indexes c') k (ToLower n) = Some idx) ∧
  (length es = S maxCachedKeys →
   ∀ k' n' idx',
     indexes (CacheTableIndexes c' k' n' idx') = Some {[k' := {[ToLower n' := idx']}]}).
Proof.
  intros Hnd Hlen c'.
  pose proof (indexes_index_ops es newSessionCache) as Hrun. fold c' in Hrun.
  simpl in Hrun.
  destruct (fill_then_flush ((λ e, (e.1.1, insert (ToLower e.1.2) e.2)) <$> es))
    as (Hsz & Hin & Hflush).
  { by rewrite (fmap_fst_entries (λ e, insert (ToLower e.1.2) e.2)). }
  { by rewrite length_fmap. }
  rewrite length_fmap in Hsz, Hflush. rewrite <- Hrun in Hsz, Hin, Hflush.
  split; [done|]. split.
  - intros k n idx Hel. rewrite <- get2_make_if_nil. unfold get2; simpl.
    rewrite (Hin k (insert (ToLower n) idx)).
    + simpl. apply lookup_insert_eq.
    + apply list_elem_of_fmap. by exists (k, n, idx).
  - intros Hfull k' n' idx'. rewrite CacheTableIndexes_put2; simpl.
    by rewrite Hflush, insert_empty.
Qed.

Lemma table_fill (es : list (DataCacheKey * string * option Table)) :
  NoDup es.*1.*1 →
  length es ≤ S maxCachedKeys →
  let c' := session_run newSessionCache (table_ops es) in
  size (make_if_nil (tables c')) = length es ∧
  (∀ k n t, (k, n, t) ∈ es → get2 (tables c') k (ToLower n) = Some t) ∧
  (length es = S maxCachedKeys →
   ∀ k' n' t',
     tables (CacheTable c' k' n' t') = Some {[k' := {[ToLower n' := t']}]}).
Proof.
  intros Hnd Hlen c'.
  pose proof (tables_table_ops es newSessionCache) as Hrun. fold c' in Hrun.
  simpl in Hrun.
  destruct (fill_then_flush ((λ e, (e.1.1, insert (ToLower e.1.2) e.2)) <$> es))
    as (Hsz & Hin & Hflush).
  { by rewrite (fmap_fst_entries (λ e, insert (ToLower e.1.2) e.2)). }
  { by rewrite length_fmap. }
  rewrite length_fmap in Hsz, Hflush. rewrite <- Hrun in Hsz, Hin, Hflush.
  split; [done|]. split.
  - intros k n t Hel. rewrite <- get2_make_if_nil. unfold get2; simpl.
    rewrite (Hin k (insert (ToLower n) t)).
    + simpl. apply lookup_insert_eq.
    + apply list_elem_of_fmap. by exists (k, n, t).
  - intros Hfull k' n' t'. rewrite CacheTable_put2; simpl.
    by rewrite Hflush, insert_empty.
Qed.

Lemma view_fill (es : list (DataCacheKey * list ViewDefinition)) :
  NoDup es.*1 →
  length es ≤ S maxCachedKeys →
  let c' := session_run newSessionCache (view_ops es) in
  size (make_if_nil (views c')) = length es ∧
  (∀ k vs, (k, vs) ∈ es → make_if_nil (views c') !! k = Some (store_views ∅ vs)) ∧
  (length es = S maxCachedKeys →
   ∀ k' vs',
     views (CacheViews c' k' vs') = Some {[k' := store_views ∅ vs']}).
Proof.
  intros Hnd Hlen c'.
  pose proof (views_view_ops es newSessionCache) as Hrun. fold c' in Hrun.
  simpl in Hrun.
  destruct (fill_then_flush ((λ e, (e.1, λ inner, store_views inner e.2)) <$> es))
    as (Hsz & Hin & Hflush).
  { rewrite <- list_fmap_compose.
    by replace ((fst ∘ λ e : DataCacheKey * list ViewDefinition,
                   (e.1, λ inner, store_views inner e.2)) <$> es) with (es.*1). }
  { by rewrite length_fmap. }
  rewrite length_fmap in Hsz, Hflush. rewrite <- Hrun in Hsz, Hin, Hflush.
  split; [done|]. split.
  - intros k vs Hel.
    rewrite (Hin k (λ inner, store_views inner vs)); [done|].
    apply list_elem_of_fmap. by exists (k, vs).
  - intros Hfull k' vs'. rewrite CacheViews_put2; simpl. by rewrite Hflush.
Qed.

(** C2, as the code has it: the capacity check is [len > maxCachedKeys],
    so a sub-cache is flushed by a caching call made when it already
    holds more than 64 keys, that is 65.  From a new cache, up to 65 calls
    with distinct keys flush nothing: each entry stored is found
    afterwards.  Once 65 distinct keys are held, the next caching call
    (the 66th) clears them all: the sub-cache then holds exactly the entry
    just stored, which is found, and a lookup under any other key reports
    not-found.  This holds for indexes, tables and views. *)
Theorem flush_at_66th_key :
  (∀ es : list (DataCacheKey * string * list Index),
     NoDup es.*1.*1 →
     length es ≤ S maxCachedKeys →
     let c' := session_run newSessionCache (index_ops es) in
     (∀ k n idx, (k, n, idx) ∈ es → GetTableIndexesCache c' k n = (idx, true)) ∧
     (length es = S maxCachedKeys →
      ∀ k' n' idx',
        let c66 := CacheTableIndexes c' k' n' idx' in
        indexes c66 = Some {[k' := {[ToLower n' := idx']}]} ∧
        GetTableIndexesCache c66 k' n' = (idx', true) ∧
        (∀ k n, k ≠ k' → GetTableIndexesCache c66 k n = ([], false)))) ∧
  (∀ es : list (DataCacheKey * string * option Table),
     NoDup es.*1.*1 →
     length es ≤ S maxCachedKeys →
     let c' := session_run newSessionCache (table_ops es) in
     (∀ k n t, (k, n, t) ∈ es → GetCachedTable c' k n = (t, true)) ∧
     (length es = S maxCachedKeys →
      ∀ k' n' t',
        let c66 := CacheTable c' k' n' t' in
        tables c66 = Some {[k' := {[ToLower n' := t']}]} ∧
        GetCachedTable c66 k' n' = (t', true) ∧
        (∀ k n, k ≠ k' → GetCachedTable c66 k n = (None, false)))) ∧
  (∀ es : list (DataCacheKey * list ViewDefinition),
     NoDup es.*1 →
     length es ≤ S maxCachedKeys →
     let c' := session_run newSessionCache (view_ops es) in
     (∀ k vs, (k, vs) ∈ es →
        ViewsCached c' k = true ∧
        ∀ n, GetCachedViewDefinition c' k n =
             GetCachedViewDefinition (CacheViews newSessionCache k vs) k n) ∧
     (length es = S maxCachedKeys →
      ∀ k' vs',
        let c66 := CacheViews c' k' vs' in
        views c66 = Some {[k' := store_views ∅ vs']} ∧
        ViewsCached c66 k' = true ∧
        (∀ k n, k ≠ k' →
           ViewsCached c66 k = false ∧
           GetCachedViewDefinition c66 k n = (ViewDefinition_zero, false)))).
Proof.
  split; [|split].
  - intros es Hnd Hlen c'.
    destruct (index_fill es Hnd Hlen) as (_ & Hin & Hflush). fold c' in Hin, Hflush.
    split.
    + intros k n idx Hel. by rewrite GetTableIndexesCache_get2, (Hin k n idx).
    + intros Hfull k' n' idx'. cbv zeta. specialize (Hflush Hfull k' n' idx'). split; [done|]. split.
      * by rewrite GetTableIndexesCache_get2, get2_CacheTableIndexes.
      * intros k n Hne.
        by rewrite GetTableIndexesCache_get2, Hflush, get2_singleton_ne.
  - intros es Hnd Hlen c'.
    destruct (table_fill es Hnd Hlen) as (_ & Hin & Hflush). fold c' in Hin, Hflush.
    split.
    + intros k n t Hel. by rewrite GetCachedTable_get2, (Hin k n t).
    + intros Hfull k' n' t'. cbv zeta. specialize (Hflush Hfull k' n' t'). split; [done|]. split.
      * by rewrite GetCachedTable_get2, get2_CacheTable.
      * intros k n Hne.
        by rewrite GetCachedTable_get2, Hflush, get2_singleton_ne.
  - intros es Hnd Hlen c'.
    destruct (view_fill es Hnd Hlen) as (_ & Hin & Hflush). fold c' in Hin, Hflush.
    split.
    + intros k vs Hel. specialize (Hin k vs Hel).
      assert (views c' ≫= (.!! k) = Some (store_views ∅ vs)) as Hk.
      { destruct (views c'); [done|]. simpl in Hin. by rewrite lookup_empty in Hin. }
      split.
      * rewrite ViewsCached_lookup, Hk. apply bool_decide_eq_true_2; eauto.
      * intros n. rewrite !GetCachedViewDefinition_get2. unfold get2. rewrite Hk.
        rewrite CacheViews_put2; simpl. by rewrite lookup_put2_eq.
    + intros Hfull k' vs'. cbv zeta. specialize (Hflush Hfull k' vs'). split; [done|]. split.
      * rewrite ViewsCached_lookup, Hflush; simpl. rewrite lookup_singleton_eq.
        apply bool_decide_eq_true_2; eauto.
      * intros k n Hne. split.
        -- rewrite ViewsCached_lookup, Hflush; simpl.
           rewrite lookup_singleton_ne by done.
           apply bool_decide_eq_false_2. by intros [? ?].
        -- by rewrite GetCachedViewDefinition_get2, Hflush, get2_singleton_ne.
Qed.

(** ** The database cache *)

Lemma comma_ok_missing {V : Type} (zero : V) (o : option V) :
  (comma_ok zero o).2 = false ↔ o = None.
Proof. by destruct o. Qed.

Lemma get2_evict_None {K : Type} `{Countable K} {V : Type}
    (m : gmap K (gmap string V)) (k : K) n :
  get2 (Some m) k n = None → get2 (Some (evict m)) k n = None.
Proof.
  unfold evict. case_decide; [|done]. intros _. unfold get2; simpl.
  by rewrite lookup_empty.
Qed.

(** Under the key just written, the name just written is found and any
    other name is found only if it was there after the capacity check. *)
Lemma get2_put2_insert_key {K : Type} `{Countable K} {V : Type}
    (m : gmap K (gmap string V)) (k : K) n n' (v : V) :
  get2 (Some (put2 m k (insert n v))) k n' =
  if decide (n = n') then Some v else get2 (Some (evict m)) k n'.
Proof.
  unfold get2; simpl. rewrite lookup_put2_eq; simpl.
  case_decide as Hn.
  - subst. apply lookup_insert_eq.
  - rewrite lookup_insert_ne by done.
    destruct (evict m !! k); simpl; [done|apply lookup_empty].
Qed.

(** C4: with a root reported for the branch's database name and the
    fingerprint map in place (as [newDatabaseCache] and [Clear] leave it),
    [CacheSessionVars] stores the fingerprint (root, head) under that name
    and returns true exactly when it is not the fingerprint stored before,
    in particular when none was stored.  A second call with the same
    branch state and transaction returns false and changes nothing; a call
    with another head returns true. *)
Theorem CacheSessionVars_with_root (c : DatabaseCache)
    (sv : gmap string sessionVarCacheKey) (bs : branchState)
    (transaction : DoltTransaction) (rt : Hash) :
  sessionVars c = Some sv →
  GetInitialRoot transaction (dbs_dbName (dbState bs)) = (rt, true) →
  let name := dbs_dbName (dbState bs) in
  let newKey := {| root := mkDataCacheKey rt; head := bs_head bs |} in
  let c1 := {| revisionDbs := revisionDbs c;
               initialDbStates := initialDbStates c;
               sessionVars := Some (<[name := newKey]> sv) |} in
  ∃ changed : bool,
    CacheSessionVars c bs transaction = Some (c1, changed) ∧
    (changed = true ↔ sv !! name ≠ Some newKey) ∧
    (sv !! name = None → changed = true) ∧
    CacheSessionVars c1 bs transaction = Some (c1, false) ∧
    (∀ h', h' ≠ bs_head bs →
       ∃ c2, CacheSessionVars c1 {| dbState := dbState bs; bs_head := h' |} transaction
             = Some (c2, true)).
Proof.
  intros Hsv Hroot name newKey c1.
  assert (Hcall : ∀ c0 sv0 h,
    sessionVars c0 = Some sv0 →
    CacheSessionVars c0 {| dbState := dbState bs; bs_head := h |} transaction =
    Some ({| revisionDbs := revisionDbs c0;
             initialDbStates := initialDbStates c0;
             sessionVars :=
               Some (<[name := {| root := mkDataCacheKey rt; head := h |}]> sv0) |},
          bool_decide (sv0 !! name ≠ Some {| root := mkDataCacheKey rt; head := h |}))).
  { intros c0 sv0 h H0. unfold CacheSessionVars, name. cbn [dbState bs_head].
    rewrite Hroot, H0. cbn [mbind option_bind negb].
    destruct (sv0 !! dbs_dbName (dbState bs)) as [old|] eqn:Hold; cbn [comma_ok orb negb]; do 2 f_equal;
      try done.
    destruct (decide (old = {| root := mkDataCacheKey rt; head := h |})) as [->|Hne].
    - rewrite bool_decide_eq_true_2 by done. simpl. symmetry.
      apply bool_decide_eq_false_2. by intros Hc; apply Hc.
    - rewrite bool_decide_eq_false_2 by done. simpl. symmetry.
      apply bool_decide_eq_true_2. congruence. }
  assert (bs = {| dbState := dbState bs; bs_head := bs_head bs |}) as Hbs
    by (by destruct bs).
  exists (bool_decide (sv !! name ≠ Some newKey)).
  split; [|split; [|split; [|split]]].
  - rewrite Hbs at 1. by apply Hcall.
  - apply bool_decide_eq_true.
  - intros Hnone. apply bool_decide_eq_true_2. by rewrite Hnone.
  - rewrite Hbs at 1. rewrite (Hcall c1 (<[name := newKey]> sv)) by done.
    subst c1; cbn [revisionDbs initialDbStates]. fold newKey.
    rewrite insert_insert_eq, lookup_insert_eq.
    do 2 f_equal. apply bool_decide_eq_false_2. by intros Hc; apply Hc.
  - intros h' Hh'. eexists. rewrite (Hcall c1 (<[name := newKey]> sv)) by done.
    do 2 f_equal. apply bool_decide_eq_true_2.
    rewrite lookup_insert_eq. subst newKey. intros [= Heq]. by apply Hh'.
Qed.

(** Without the fingerprint map (a [DatabaseCache] not made by
    [newDatabaseCache]) the assignment panics. *)
Lemma CacheSessionVars_nil_map_panics (c : DatabaseCache) (bs : branchState)
    (transaction : DoltTransaction) (rt : Hash) :
  sessionVars c = None →
  GetInitialRoot transaction (dbs_dbName (dbState bs)) = (rt, true) →
  CacheSessionVars c bs transaction = None.
Proof. intros Hnil Hroot. unfold CacheSessionVars. by rewrite Hroot, Hnil. Qed.

(** C5: with no root reported for the branch's database name,
    [CacheSessionVars] returns true and the cache is exactly what it was:
    no fingerprint is stored and a stored one stays. *)
Theorem CacheSessionVars_without_root (c : DatabaseCache) (bs : branchState)
    (transaction : DoltTransaction) (rt : Hash) :
  GetInitialRoot transaction (dbs_dbName (dbState bs)) = (rt, false) →
  CacheSessionVars c bs transaction = Some (c, true).
Proof.
  intros Hroot. unfold CacheSessionVars. rewrite Hroot.
  by destruct (comma_ok _ _).
Qed.

Lemma GetCachedRevisionDb_lookup c r q :
  GetCachedRevisionDb c r q =
  comma_ok None (Some <$> (revisionDbs c ≫= (.!! {| dbName := r; requestedName := q |}))).
Proof. unfold GetCachedRevisionDb. by destruct (revisionDbs c). Qed.

(** C6: [CacheRevisionDb] stores the database under the pair made of its
    lower-cased revision-qualified name and its requested name as it is;
    [GetCachedRevisionDb] looks up the pair made of its two arguments as
    they are.  So the database just cached is found under exactly that
    pair, and a pair that was not in the cache before is found afterwards
    if and only if its first component is the lower-cased
    revision-qualified name and its second the requested name. *)
Theorem revision_db_exact_match (c : DatabaseCache) (database : D)
    (r q : string) :
  revisionDbs (CacheRevisionDb c database) =
    Some (<[ {| dbName := ToLower (RevisionQualifiedName database);
                requestedName := RequestedName database |} := database ]>
          (evict (make_if_nil (revisionDbs c)))) ∧
  GetCachedRevisionDb (CacheRevisionDb c database)
    (ToLower (RevisionQualifiedName database)) (RequestedName database)
    = (Some database, true) ∧
  ((GetCachedRevisionDb c r q).2 = false →
   ((GetCachedRevisionDb (CacheRevisionDb c database) r q).2 = true ↔
    r = ToLower (RevisionQualifiedName database) ∧ q = RequestedName database) ∧
   (¬ (r = ToLower (RevisionQualifiedName database) ∧ q = RequestedName database) →
    GetCachedRevisionDb (CacheRevisionDb c database) r q = (None, false))).
Proof.
  rewrite CacheRevisionDb_insert. split; [done|]. split.
  { rewrite GetCachedRevisionDb_lookup; simpl. by rewrite lookup_insert_eq. }
  intros Hmiss. rewrite GetCachedRevisionDb_lookup in Hmiss.
  apply comma_ok_missing in Hmiss.
  assert (evict (make_if_nil (revisionDbs c)) !! {| dbName := r; requestedName := q |}
          = None) as Hnone.
  { apply evict_lookup_None. destruct (revisionDbs c) as [m|]; simpl in *.
    - by destruct (m !! _).
    - apply lookup_empty. }
  assert (¬ (r = ToLower (RevisionQualifiedName database) ∧ q = RequestedName database) →
          GetCachedRevisionDb
            {| revisionDbs :=
                 Some (<[ {| dbName := ToLower (RevisionQualifiedName database);
                             requestedName := RequestedName database |} := database ]>
                       (evict (make_if_nil (revisionDbs c))));
               initialDbStates := initialDbStates c;
               sessionVars := sessionVars c |} r q = (None, false)) as Hother.
  { intros Hne. rewrite GetCachedRevisionDb_lookup; simpl.
    rewrite lookup_insert_ne; [by rewrite Hnone|].
    intros [= Hr Hq]. by apply Hne. }
  split; [|done]. split.
  - intros Hhit.
    destruct (decide (r = ToLower (RevisionQualifiedName database)
                      ∧ q = RequestedName database)) as [|Hne]; [done|].
    by rewrite (Hother Hne) in Hhit.
  - intros [-> ->]. rewrite GetCachedRevisionDb_lookup; simpl.
    by rewrite lookup_insert_eq.
Qed.

(** C8: [Clear] leaves three empty maps, whatever the cache held: every
    lookup of a revision database or of an initial state reports
    not-found, and [CacheSessionVars] returns and stores what it does on
    a new cache, returning true. *)
Theorem Clear_empties (c : DatabaseCache) :
  Clear c = {| revisionDbs := Some ∅; initialDbStates := Some ∅;
               sessionVars := Some ∅ |} ∧
  (∀ r q, GetCachedRevisionDb (Clear c) r q = (None, false)) ∧
  (∀ k n, GetCachedInitialDbState (Clear c) k n = (InitialDbState_zero, false)) ∧
  (∀ bs transaction,
     snd <$> CacheSessionVars (Clear c) bs transaction = Some true ∧
     (λ res, (sessionVars res.1, res.2)) <$> CacheSessionVars (Clear c) bs transaction =
     (λ res, (sessionVars res.1, res.2)) <$> CacheSessionVars newDatabaseCache bs transaction).
Proof.
  split; [done|]. split; [|split].
  - intros r q. rewrite GetCachedRevisionDb_lookup; simpl. by rewrite lookup_empty.
  - intros k n. rewrite GetCachedInitialDbState_get2. unfold get2; simpl.
    by rewrite lookup_empty.
  - intros bs transaction. unfold CacheSessionVars; simpl.
    rewrite lookup_empty; simpl.
    by destruct (GetInitialRoot transaction _) as [rt [|]].
Qed.

(** C9: the initial-state cache compares names as they are.  The state
    just cached is found under the very name it was cached with; under
    any other name that was not found before, it is still not found
    afterwards, however close the two names are in casing: cached as
    "DB/main", it is not found as "db/main". *)
Theorem initial_state_names_exact (c : DatabaseCache) (k : DataCacheKey)
    (n n' : string) (state : InitialDbState) :
  GetCachedInitialDbState (CacheInitialDbState c k n state) k n = (state, true) ∧
  ((GetCachedInitialDbState c k n').2 = false →
   ((GetCachedInitialDbState (CacheInitialDbState c k n state) k n').2 = true ↔ n' = n) ∧
   (n' ≠ n →
    GetCachedInitialDbState (CacheInitialDbState c k n state) k n'
    = (InitialDbState_zero, false))) ∧
  ((GetCachedInitialDbState c k "db/main").2 = false →
   GetCachedInitialDbState (CacheInitialDbState c k "DB/main" state) k "db/main"
   = (InitialDbState_zero, false)).
Proof.
  assert (Hget : ∀ a b,
    GetCachedInitialDbState (CacheInitialDbState c k a state) k b =
    comma_ok InitialDbState_zero
      (if decide (a = b) then Some state
       else get2 (Some (evict (make_if_nil (initialDbStates c)))) k b)).
  { intros a b. rewrite GetCachedInitialDbState_get2, CacheInitialDbState_put2; simpl.
    by rewrite get2_put2_insert_key. }
  assert (Hmiss : ∀ a b, a ≠ b →
    (GetCachedInitialDbState c k b).2 = false →
    GetCachedInitialDbState (CacheInitialDbState c k a state) k b
    = (InitialDbState_zero, false)).
  { intros a b Hne Hb. rewrite Hget, decide_False by done.
    rewrite GetCachedInitialDbState_get2 in Hb. apply comma_ok_missing in Hb.
    rewrite <- get2_make_if_nil in Hb. by rewrite get2_evict_None. }
  split; [|split].
  - by rewrite Hget, decide_True.
  - intros Hb. split.
    + split.
      * intros Hhit. destruct (decide (n' = n)) as [|Hne]; [done|].
        rewrite Hmiss in Hhit; [done|congruence|done].
      * intros ->. by rewrite Hget, decide_True.
    + intros Hne. apply Hmiss; [congruence|done].
  - intros Hb. by apply Hmiss.
Qed.

(** ** The capacity bound *)

Lemma session_bounded_step c op :
  session_bounded c → session_bounded (session_step c op).
Proof.
  intros (Hi & Ht & Hv). unfold session_bounded.
  destruct op as [k n idx|k n t| |k vs]; simpl;
    rewrite ?CacheTableIndexes_put2, ?CacheTable_put2, ?CacheViews_put2; simpl;
    repeat split; try done; try apply size_put2.
  destruct (tables c) as [m|]; simpl; [|done].
  rewrite range_delete_empty, map_size_empty. lia.
Qed.

Lemma session_bounded_run ops :
  ∀ c, session_bounded c → session_bounded (session_run c ops).
Proof.
  induction ops as [|op ops IH]; intros c Hc; [done|].
  simpl. apply IH. by apply session_bounded_step.
Qed.

Lemma database_bounded_step c op c' :
  database_bounded c → database_step c op = Some c' → database_bounded c'.
Proof.
  intros (Hr & Hs) Hstep. unfold database_bounded.
  destruct op as [database|k n state|bs transaction|]; simpl in Hstep.
  - injection Hstep as <-. rewrite CacheRevisionDb_insert; simpl.
    split; [apply size_insert_evict|done].
  - injection Hstep as <-. rewrite CacheInitialDbState_put2; simpl.
    split; [done|apply size_put2].
  - unfold CacheSessionVars in Hstep.
    destruct (comma_ok _ _) as [existingKey found].
    destruct (GetInitialRoot transaction _) as [rt [|]]; simpl in Hstep.
    + destruct (sessionVars c); simpl in Hstep; [|done].
      by injection Hstep as <-.
    + by injection Hstep as <-.
  - injection Hstep as <-. simpl. rewrite !map_size_empty. lia.
Qed.

(** With the fingerprint map in place no call panics, and the map stays
    in place. *)
Lemma database_step_total c op :
  is_Some (sessionVars c) →
  ∃ c', database_step c op = Some c' ∧ is_Some (sessionVars c').
Proof.
  intros [sv Hsv].
  destruct op as [database|k n state|bs transaction|]; simpl.
  - eexists; split; [done|]. rewrite CacheRevisionDb_insert; simpl. eauto.
  - eexists; split; [done|]. rewrite CacheInitialDbState_put2; simpl. eauto.
  - unfold CacheSessionVars. rewrite Hsv.
    destruct (comma_ok _ _) as [existingKey found].
    destruct (GetInitialRoot transaction _) as [rt [|]]; simpl.
    + eexists; split; [done|]. simpl. eauto.
    + eexists; split; [done|]. rewrite Hsv. eauto.
  - eexists; split; [done|]. simpl. eauto.
Qed.

Lemma database_run_total ops :
  ∀ c, is_Some (sessionVars c) → database_bounded c →
       ∃ c', database_run c ops = Some c' ∧ database_bounded c'.
Proof.
  induction ops as [|op ops IH]; intros c Hsv Hb; [by exists c|].
  destruct (database_step_total c op Hsv) as (c1 & Hstep & Hsv1).
  simpl. rewrite Hstep; simpl. apply IH; [done|].
  by apply (database_bounded_step c op).
Qed.

(** Every cache reached from [newDatabaseCache] has its fingerprint map
    in place. *)
Lemma database_run_sessionVars ops :
  ∀ c c', is_Some (sessionVars c) → database_run c ops = Some c' →
          is_Some (sessionVars c').
Proof.
  induction ops as [|op ops IH]; intros c c' Hsv Hrun.
  - by injection Hrun as <-.
  - destruct (database_step_total c op Hsv) as (c1 & Hstep & Hsv1).
    simpl in Hrun. rewrite Hstep in Hrun. by apply (IH c1).
Qed.

Lemma initialDbStates_state_ops es :
  ∀ c, ∃ c', database_run c (state_ops es) = Some c' ∧
             make_if_nil (initialDbStates c') =
             put2_all (make_if_nil (initialDbStates c))
                      ((λ e, (e.1.1, insert e.1.2 e.2)) <$> es).
Proof.
  induction es as [|[[k n] state] es IH]; intros c; [by exists c|].
  destruct (IH (CacheInitialDbState c k n state)) as (c' & Hrun & Hm).
  exists c'. split; [done|]. rewrite Hm. by rewrite CacheInitialDbState_put2.
Qed.

Lemma revisionDbs_revision_ops dbs :
  ∀ c, ∃ c', database_run c (revision_ops dbs) = Some c' ∧
             make_if_nil (revisionDbs c') =
             put1_all (make_if_nil (revisionDbs c))
                      ((λ d, (revisionDbKey d, d)) <$> dbs).
Proof.
  induction dbs as [|d dbs IH]; intros c; [by exists c|].
  destruct (IH (CacheRevisionDb c d)) as (c' & Hrun & Hm).
  exists c'. split; [done|]. rewrite Hm. by rewrite CacheRevisionDb_insert.
Qed.

Lemma sample_key_inj : Inj (=) (=) sample_key.
Proof. intros i j [= Hij]. by apply Nat2N.inj. Qed.

Lemma NoDup_sample_keys n : NoDup (sample_key <$> seq 1 n).
Proof.
  apply NoDup_fmap_2_strong; [|apply NoDup_seq].
  intros i j _ _. apply sample_key_inj.
Qed.

Lemma session_bounded_new : session_bounded newSessionCache.
Proof. unfold session_bounded; simpl. rewrite !map_size_empty. lia. Qed.

Lemma database_bounded_new : database_bounded newDatabaseCache.
Proof. unfold database_bounded; simpl. rewrite !map_size_empty. lia. Qed.

(** C10: each outer map with the capacity check (indexes, tables and
    views of the session cache; revision databases and initial states of
    the database cache) holds at most 65 keys, one more than
    [maxCachedKeys]: every call preserves this, so it holds after every
    history of a new cache (and no history of a new database cache
    panics).  The bound is reached: 65 distinct keys stored one after the
    other into a new cache are all held. *)
Theorem outer_maps_bounded :
  (∀ c op, session_bounded c → session_bounded (session_step c op)) ∧
  (∀ ops, session_bounded (session_run newSessionCache ops)) ∧
  (∀ c op c', database_bounded c → database_step c op = Some c' →
              database_bounded c') ∧
  (∀ ops, ∃ c, database_run newDatabaseCache ops = Some c ∧ database_bounded c) ∧
  (∃ ops, size (make_if_nil (indexes (session_run newSessionCache ops)))
          = S maxCachedKeys) ∧
  (∃ ops, size (make_if_nil (tables (session_run newSessionCache ops)))
          = S maxCachedKeys) ∧
  (∃ ops, size (make_if_nil (views (session_run newSessionCache ops)))
          = S maxCachedKeys) ∧
  (∃ ops c, database_run newDatabaseCache ops = Some c ∧
            size (make_if_nil (initialDbStates c)) = S maxCachedKeys) ∧
  (∀ dbs : list D,
     NoDup (revisionDbKey <$> dbs) →
     length dbs = S maxCachedKeys →
     ∃ c, database_run newDatabaseCache (revision_ops dbs) = Some c ∧
          size (make_if_nil (revisionDbs c)) = S maxCachedKeys).
Proof.
  assert (Hlen : ∀ {A} (f : nat → A), length (f <$> seq 1 (S maxCachedKeys)) = S maxCachedKeys)
    by (intros; by rewrite length_fmap, length_seq).
  assert (Hkeys3 : ∀ {B C} (b : B) (c : C),
    ((λ i, (sample_key i, b, c)) <$> seq 1 (S maxCachedKeys)).*1.*1
    = sample_key <$> seq 1 (S maxCachedKeys)).
  { intros. by rewrite <- !list_fmap_compose. }
  split; [apply session_bounded_step|].
  split; [intros ops; apply session_bounded_run, session_bounded_new|].
  split; [apply database_bounded_step|].
  split.
  { intros ops. apply database_run_total; [by eexists|apply database_bounded_new]. }
  split; [|split; [|split; [|split]]].
  - set (es := (λ i, (sample_key i, "", @nil Index)) <$> seq 1 (S maxCachedKeys)).
    exists (index_ops es).
    assert (NoDup es.*1.*1) as Hnd by (unfold es; rewrite Hkeys3; apply NoDup_sample_keys).
    assert (length es ≤ S maxCachedKeys) as Hle by (unfold es; rewrite Hlen; reflexivity).
    destruct (index_fill es Hnd Hle) as (Hsz & _). rewrite Hsz. apply Hlen.
  - set (es := (λ i, (sample_key i, "", @None Table)) <$> seq 1 (S maxCachedKeys)).
    exists (table_ops es).
    assert (NoDup es.*1.*1) as Hnd by (unfold es; rewrite Hkeys3; apply NoDup_sample_keys).
    assert (length es ≤ S maxCachedKeys) as Hle by (unfold es; rewrite Hlen; reflexivity).
    destruct (table_fill es Hnd Hle) as (Hsz & _). rewrite Hsz. apply Hlen.
  - set (es := (λ i, (sample_key i, @nil ViewDefinition)) <$> seq 1 (S maxCachedKeys)).
    exists (view_ops es).
    assert (NoDup es.*1) as Hnd by (unfold es; rewrite <- list_fmap_compose; apply NoDup_sample_keys).
    assert (length es ≤ S maxCachedKeys) as Hle by (unfold es; rewrite Hlen; reflexivity).
    destruct (view_fill es Hnd Hle) as (Hsz & _). rewrite Hsz. apply Hlen.
  - set (es := (λ i, (sample_key i, "", InitialDbState_zero)) <$> seq 1 (S maxCachedKeys)).
    destruct (initialDbStates_state_ops es newDatabaseCache) as (c' & Hrun & Hm).
    exists (state_ops es), c'. split; [exact Hrun|]. rewrite Hm.
    cbn [newDatabaseCache initialDbStates make_if_nil].
    destruct (fill_then_flush ((λ e, (e.1.1, insert e.1.2 e.2)) <$> es)) as (Hsz & _).
    + rewrite (fmap_fst_entries (λ e, insert e.1.2 e.2)). unfold es.
      rewrite Hkeys3. apply NoDup_sample_keys.
    + unfold es. rewrite length_fmap, Hlen. reflexivity.
    + rewrite Hsz, length_fmap. apply Hlen.
  - intros dbs Hnd Hfull.
    destruct (revisionDbs_revision_ops dbs newDatabaseCache) as (c' & Hrun & Hm).
    exists c'. split; [exact Hrun|]. rewrite Hm.
    cbn [newDatabaseCache revisionDbs make_if_nil].
    destruct (put1_all_fresh ((λ d, (revisionDbKey d, d)) <$> dbs) ∅) as (Hsz & _).
    + rewrite <- list_fmap_compose. exact Hnd.
    + intros k _. apply lookup_empty.
    + rewrite map_size_empty, length_fmap, Hfull. reflexivity.
    + rewrite Hsz, map_size_empty, length_fmap. exact Hfull.
Qed.

(** ** Every lookup after a caching call *)

Lemma get2_evict {K : Type} `{Countable K} {V : Type}
    (m : gmap K (gmap string V)) (k : K) n :
  get2 (Some (evict m)) k n =
  if decide (size m ≤ maxCachedKeys) then get2 (Some m) k n else None.
Proof.
  case_decide as Hsz.
  - by rewrite evict_small.
  - rewrite evict_big by lia. unfold get2; simpl. by rewrite lookup_empty.
Qed.

Lemma get2_put2 {K : Type} `{Countable K} {V : Type}
    (m : gmap K (gmap string V)) (k k' : K)
    (f : gmap string V → gmap string V) n' :
  get2 (Some (put2 m k f)) k' n' =
  if decide (k = k') then f (default ∅ (evict m !! k)) !! n'
  else get2 (Some (evict m)) k' n'.
Proof.
  unfold get2; simpl. case_decide as Hk.
  - subst. by rewrite lookup_put2_eq.
  - by rewrite lookup_put2_ne.
Qed.

Lemma get2_default {K : Type} `{Countable K} {V : Type}
    (m : gmap K (gmap string V)) (k : K) n :
  default ∅ (m !! k) !! n = get2 (Some m) k n.
Proof. unfold get2; simpl. destruct (m !! k); simpl; [done|apply lookup_empty]. Qed.

Lemma get2_put2_insert {K : Type} `{Countable K} {V : Type}
    (m : gmap K (gmap string V)) (k k' : K) n n' (v : V) :
  get2 (Some (put2 m k (insert n v))) k' n' =
  if decide (k = k' ∧ n = n') then Some v
  else if decide (size m ≤ maxCachedKeys) then get2 (Some m) k' n' else None.
Proof.
  rewrite get2_put2, <- get2_evict.
  destruct (decide (k = k')) as [<-|Hk].
  - destruct (decide (n = n')) as [<-|Hn].
    + rewrite lookup_insert_eq. by rewrite decide_True.
    + rewrite lookup_insert_ne by done. rewrite decide_False by (by intros [_ ?]).
      apply get2_default.
  - by rewrite decide_False by (by intros [? _]).
Qed.

Lemma store_views_snoc inner vs v :
  store_views inner (vs ++ [v]) = <[ToLower (Name v) := v]> (store_views inner vs).
Proof. by rewrite store_views_app. Qed.

(** The views of a call go on top of what the inner map held. *)
Lemma store_views_lookup inner vs ln :
  store_views inner vs !! ln =
  match store_views ∅ vs !! ln with
  | Some v => Some v
  | None => inner !! ln
  end.
Proof.
  induction vs as [|v vs IH] using rev_ind.
  - simpl. by rewrite lookup_empty.
  - rewrite !store_views_snoc.
    destruct (decide (ToLower (Name v) = ln)) as [<-|Hne].
    + by rewrite !lookup_insert_eq.
    + by rewrite !lookup_insert_ne.
Qed.

Lemma store_views_lookup_Some vs ln v :
  store_views ∅ vs !! ln = Some v → v ∈ vs ∧ ToLower (Name v) = ln.
Proof.
  induction vs as [|w vs IH] using rev_ind.
  - simpl. by rewrite lookup_empty.
  - rewrite store_views_snoc.
    destruct (decide (ToLower (Name w) = ln)) as [<-|Hne].
    + rewrite lookup_insert_eq. intros [= ->]. split; [|done].
      apply elem_of_app. right. by left.
    + rewrite lookup_insert_ne by done. intros Hin.
      destruct (IH Hin) as [? ?]. split; [|done]. apply elem_of_app. by left.
Qed.

(** X1: what any lookup returns right after a caching call of the session
    cache.  The entry just stored is found under its key and any name of
    the same lower-casing.  Every other lookup returns what it returned
    before when the outer map held at most [maxCachedKeys] keys, and
    not-found when it held more (the call flushed it).  For [CacheViews]
    the entries just stored are the last views of each lower-cased name. *)
Theorem session_lookup_after_cache (c : SessionCache) (k k' : DataCacheKey)
    (n n' : string) :
  (∀ idx,
     GetTableIndexesCache (CacheTableIndexes c k n idx) k' n' =
     if decide (k = k' ∧ ToLower n = ToLower n') then (idx, true)
     else if decide (size (make_if_nil (indexes c)) ≤ maxCachedKeys)
          then GetTableIndexesCache c k' n'
          else ([], false)) ∧
  (∀ t,
     GetCachedTable (CacheTable c k n t) k' n' =
     if decide (k = k' ∧ ToLower n = ToLower n') then (t, true)
     else if decide (size (make_if_nil (tables c)) ≤ maxCachedKeys)
          then GetCachedTable c k' n'
          else (None, false)) ∧
  (∀ vs,
     GetCachedViewDefinition (CacheViews c k vs) k' n' =
     match (if decide (k = k') then store_views ∅ vs !! ToLower n' else None) with
     | Some v => (v, true)
     | None =>
       if decide (size (make_if_nil (views c)) ≤ maxCachedKeys)
       then GetCachedViewDefinition c k' n'
       else (ViewDefinition_zero, false)
     end).
Proof.
  split; [|split].
  - intros idx. rewrite !GetTableIndexesCache_get2, CacheTableIndexes_put2; simpl.
    rewrite get2_put2_insert, get2_make_if_nil.
    by repeat case_decide.
  - intros t. rewrite !GetCachedTable_get2, CacheTable_put2; simpl.
    rewrite get2_put2_insert, get2_make_if_nil.
    by repeat case_decide.
  - intros vs. rewrite !GetCachedViewDefinition_get2, CacheViews_put2; simpl.
    rewrite get2_put2.
    destruct (decide (k = k')) as [<-|Hk].
    + rewrite store_views_lookup, get2_default.
      destruct (store_views ∅ vs !! ToLower n'); [done|].
      rewrite get2_evict, get2_make_if_nil. by case_decide.
    + rewrite get2_evict, get2_make_if_nil. by case_decide.
Qed.

(** X2: the same for the database cache.  After [CacheRevisionDb] a pair
    of names finds the database just cached when it is its key pair;
    otherwise it finds what it found before if the map held at most
    [maxCachedKeys] entries, and nothing if it held more.  After
    [CacheInitialDbState] likewise, with the key and the name compared as
    they are. *)
Theorem database_lookup_after_cache (c : DatabaseCache) :
  (∀ database r q,
     GetCachedRevisionDb (CacheRevisionDb c database) r q =
     if decide (r = ToLower (RevisionQualifiedName database) ∧ q = RequestedName database)
     then (Some database, true)
     else if decide (size (make_if_nil (revisionDbs c)) ≤ maxCachedKeys)
          then GetCachedRevisionDb c r q
          else (None, false)) ∧
  (∀ k n state k' n',
     GetCachedInitialDbState (CacheInitialDbState c k n state) k' n' =
     if decide (k = k' ∧ n = n') then (state, true)
     else if decide (size (make_if_nil (initialDbStates c)) ≤ maxCachedKeys)
          then GetCachedInitialDbState c k' n'
          else (InitialDbState_zero, false)).
Proof.
  split.
  - intros database r q.
    rewrite !GetCachedRevisionDb_lookup, CacheRevisionDb_insert; simpl.
    destruct (decide (r = ToLower (RevisionQualifiedName database)
                      ∧ q = RequestedName database)) as [[-> ->]|Hne].
    + by rewrite lookup_insert_eq.
    + rewrite lookup_insert_ne by (intros [= ? ?]; by apply Hne).
      case_decide as Hsz.
      * rewrite evict_small by done. destruct (revisionDbs c); [done|].
        simpl. by rewrite lookup_empty.
      * rewrite evict_big by lia. by rewrite lookup_empty.
  - intros k n state k' n'.
    rewrite !GetCachedInitialDbState_get2, CacheInitialDbState_put2; simpl.
    rewrite get2_put2_insert, get2_make_if_nil.
    by repeat case_decide.
Qed.

(** ** The sub-caches do not interfere *)

Lemma session_run_fields ops :
  ∀ c,
    (Forall (λ op, writes_indexes op = false) ops →
     indexes (session_run c ops) = indexes c) ∧
    (Forall (λ op, writes_tables op = false) ops →
     tables (session_run c ops) = tables c) ∧
    (Forall (λ op, writes_views op = false) ops →
     views (session_run c ops) = views c).
Proof.
  induction ops as [|op ops IH]; intros c; [done|].
  destruct (IH (session_step c op)) as (IHi & IHt & IHv).
  change (session_run c (op :: ops)) with (session_run (session_step c op) ops).
  split; [|split]; intros [Hop Hall]%Forall_cons.
  - rewrite (IHi Hall).
    destruct op; try done; cbn [session_step];
      by rewrite ?CacheTable_put2, ?CacheViews_put2.
  - rewrite (IHt Hall).
    destruct op; try done; cbn [session_step];
      by rewrite ?CacheTableIndexes_put2, ?CacheViews_put2.
  - rewrite (IHv Hall).
    destruct op; try done; cbn [session_step];
      by rewrite ?CacheTableIndexes_put2, ?CacheTable_put2.
Qed.

(** X3: the sub-caches of the session cache do not interfere.  Along any
    history without an index call every index lookup returns what it
    returned before, whatever was cached, flushed or cleared in the other
    two sub-caches; the same holds for table lookups along histories
    without a table call or a clear, and for view lookups and
    [ViewsCached] along histories without a view call. *)
Theorem sub_caches_independent (c : SessionCache) (ops : list SessionOp)
    (k : DataCacheKey) (n : string) :
  (Forall (λ op, writes_indexes op = false) ops →
   GetTableIndexesCache (session_run c ops) k n = GetTableIndexesCache c k n) ∧
  (Forall (λ op, writes_tables op = false) ops →
   GetCachedTable (session_run c ops) k n = GetCachedTable c k n) ∧
  (Forall (λ op, writes_views op = false) ops →
   GetCachedViewDefinition (session_run c ops) k n = GetCachedViewDefinition c k n ∧
   ViewsCached (session_run c ops) k = ViewsCached c k).
Proof.
  destruct (session_run_fields ops c) as (Hi & Ht & Hv).
  split; [|split]; intros Hall.
  - by rewrite !GetTableIndexesCache_get2, (Hi Hall).
  - by rewrite !GetCachedTable_get2, (Ht Hall).
  - by rewrite !GetCachedViewDefinition_get2, !ViewsCached_lookup, (Hv Hall).
Qed.

(** X4: [ClearTableCache] drops every table entry, whatever the cache
    held and whether the table map was nil or not: every [GetCachedTable]
    reports not-found afterwards and the table map holds no key, so the
    capacity count of later [CacheTable] calls starts from zero. *)
Theorem ClearTableCache_drops_all_tables (c : SessionCache) :
  (∀ k n, GetCachedTable (ClearTableCache c) k n = (None, false)) ∧
  size (make_if_nil (tables (ClearTableCache c))) = 0 ∧
  (∀ es : list (DataCacheKey * string * option Table),
     NoDup es.*1.*1 →
     length es ≤ S maxCachedKeys →
     ∀ k n t, (k, n, t) ∈ es →
       GetCachedTable (session_run (ClearTableCache c) (table_ops es)) k n = (t, true)).
Proof.
  assert (make_if_nil (tables (ClearTableCache c)) = ∅) as Hempty.
  { simpl. destruct (tables c); simpl; [apply range_delete_empty|done]. }
  split; [|split].
  - intros k n. rewrite GetCachedTable_get2, <- get2_make_if_nil, Hempty.
    unfold get2; simpl. by rewrite lookup_empty.
  - by rewrite Hempty, map_size_empty.
  - intros es Hnd Hlen k n t Hel.
    rewrite GetCachedTable_get2, <- get2_make_if_nil, tables_table_ops, Hempty.
    destruct (fill_then_flush ((λ e, (e.1.1, insert (ToLower e.1.2) e.2)) <$> es))
      as (_ & Hin & _).
    { by rewrite (fmap_fst_entries (λ e, insert (ToLower e.1.2) e.2)). }
    { by rewrite length_fmap. }
    change (get2 (Some ?m) k ?ln) with ((m !! k) ≫= (.!! ln)).
    rewrite (Hin k (insert (ToLower n) t)).
    + cbn [mbind option_bind]. by rewrite lookup_insert_eq.
    + apply list_elem_of_fmap. by exists (k, n, t).
Qed.

(** ** Hits come from caching calls *)

Lemma get2_put2_insert_Some {K : Type} `{Countable K} {V : Type}
    (m : gmap K (gmap string V)) (k k' : K) n n' (v v' : V) :
  get2 (Some (put2 m k (insert n v))) k' n' = Some v' →
  (k = k' ∧ n = n' ∧ v = v') ∨ get2 (Some m) k' n' = Some v'.
Proof.
  rewrite get2_put2_insert.
  destruct (decide (k = k' ∧ n = n')) as [[-> ->]|Hne]; [intros [= ->]; by left|].
  case_decide; [by right|done].
Qed.

Lemma index_hit_step c op k ln idx :
  get2 (indexes (session_step c op)) k ln = Some idx →
  get2 (indexes c) k ln = Some idx ∨
  ∃ n', op = OpCacheTableIndexes k n' idx ∧ ToLower n' = ln.
Proof.
  destruct op as [k0 n0 idx0|k0 n0 t| |k0 vs]; cbn [session_step];
    rewrite ?CacheTableIndexes_put2, ?CacheTable_put2, ?CacheViews_put2; simpl;
    auto.
  intros [(-> & <- & ->)|Hold]%get2_put2_insert_Some.
  - right. by exists n0.
  - left. by rewrite <- get2_make_if_nil.
Qed.

Lemma table_hit_step c op k ln t :
  get2 (tables (session_step c op)) k ln = Some t →
  get2 (tables c) k ln = Some t ∨
  ∃ n', op = OpCacheTable k n' t ∧ ToLower n' = ln.
Proof.
  destruct op as [k0 n0 idx0|k0 n0 t0| |k0 vs]; cbn [session_step];
    rewrite ?CacheTableIndexes_put2, ?CacheTable_put2, ?CacheViews_put2;
    cbn [tables]; auto.
  - intros [(-> & <- & ->)|Hold]%get2_put2_insert_Some.
    + right. by exists n0.
    + left. by rewrite <- get2_make_if_nil.
  - intros Hhit. exfalso. unfold ClearTableCache in Hhit; simpl in Hhit.
    destruct (tables c); simpl in Hhit; [|done].
    rewrite range_delete_empty in Hhit. unfold get2 in Hhit; simpl in Hhit.
    by rewrite lookup_empty in Hhit.
Qed.

Lemma view_hit_step c op k ln v :
  get2 (views (session_step c op)) k ln = Some v →
  get2 (views c) k ln = Some v ∨
  ∃ vs, op = OpCacheViews k vs ∧ v ∈ vs ∧ ToLower (Name v) = ln.
Proof.
  destruct op as [k0 n0 idx0|k0 n0 t0| |k0 vs]; cbn [session_step];
    rewrite ?CacheTableIndexes_put2, ?CacheTable_put2, ?CacheViews_put2;
    cbn [views]; auto.
  rewrite get2_put2. destruct (decide (k0 = k)) as [->|Hk].
  - rewrite store_views_lookup, get2_default.
    destruct (store_views ∅ vs !! ln) as [w|] eqn:Hw.
    + intros [= ->]. right. exists vs. by destruct (store_views_lookup_Some _ _ _ Hw).
    + rewrite get2_evict, get2_make_if_nil. case_decide; [auto|done].
  - rewrite get2_evict, get2_make_if_nil. case_decide; [auto|done].
Qed.

(** What is found after a history was either there before it or was
    stored by one of its calls. *)
Lemma hits_have_a_source {V : Type}
    (field : SessionCache → option (gmap DataCacheKey (gmap string V)))
    (source : SessionOp → DataCacheKey → string → V → Prop) :
  (∀ c op k ln v,
     get2 (field (session_step c op)) k ln = Some v →
     get2 (field c) k ln = Some v ∨ source op k ln v) →
  ∀ ops c k ln v,
    get2 (field (session_run c ops)) k ln = Some v →
    get2 (field c) k ln = Some v ∨ ∃ op, op ∈ ops ∧ source op k ln v.
Proof.
  intros Hstep ops. induction ops as [|op ops IH] using rev_ind; intros c k ln v.
  { auto. }
  unfold session_run. rewrite foldl_app. cbn [foldl].
  intros [Hold|Hsrc]%Hstep.
  - destruct (IH c k ln v Hold) as [?|(op' & Hin & Hs)]; [auto|].
    right. exists op'. split; [|done]. apply elem_of_app. by left.
  - right. exists op. split; [|done]. apply elem_of_app. right. by left.
Qed.

(** X5: the session cache never makes up a value.  Along any history of a
    new cache, whatever a lookup finds under a key and a name was given to
    a caching call of that history, with that key and a name of the same
    lower-casing; for views, it is one of the views of a [CacheViews] call
    with that key. *)
Theorem hits_were_cached (ops : list SessionOp) (k : DataCacheKey) (n : string) :
  let c := session_run newSessionCache ops in
  (∀ idx, GetTableIndexesCache c k n = (idx, true) →
          ∃ n', OpCacheTableIndexes k n' idx ∈ ops ∧ ToLower n' = ToLower n) ∧
  (∀ t, GetCachedTable c k n = (t, true) →
        ∃ n', OpCacheTable k n' t ∈ ops ∧ ToLower n' = ToLower n) ∧
  (∀ v, GetCachedViewDefinition c k n = (v, true) →
        ∃ vs, OpCacheViews k vs ∈ ops ∧ v ∈ vs ∧ ToLower (Name v) = ToLower n).
Proof.
  assert (Hok : ∀ {V} (zero : V) o v, comma_ok zero o = (v, true) → o = Some v).
  { intros V zero [w|] v; simpl; [by intros [= ->]|done]. }
  intros c. split; [|split].
  - intros idx Hhit. rewrite GetTableIndexesCache_get2 in Hhit. apply Hok in Hhit.
    apply (hits_have_a_source indexes
             (λ op k ln v, ∃ n', op = OpCacheTableIndexes k n' v ∧ ToLower n' = ln)
             index_hit_step) in Hhit.
    destruct Hhit as [Hnew|(op & Hin & n' & -> & Hn')]; [done|]. by exists n'.
  - intros t Hhit. rewrite GetCachedTable_get2 in Hhit. apply Hok in Hhit.
    apply (hits_have_a_source tables
             (λ op k ln v, ∃ n', op = OpCacheTable k n' v ∧ ToLower n' = ln)
             table_hit_step) in Hhit.
    destruct Hhit as [Hnew|(op & Hin & n' & -> & Hn')]; [done|]. by exists n'.
  - intros v Hhit. rewrite GetCachedViewDefinition_get2 in Hhit. apply Hok in Hhit.
    apply (hits_have_a_source views
             (λ op k ln v, ∃ vs, op = OpCacheViews k vs ∧ v ∈ vs ∧ ToLower (Name v) = ln)
             view_hit_step) in Hhit.
    destruct Hhit as [Hnew|(op & Hin & vs & -> & Hv & Hn')]; [done|]. by exists vs.
Qed.

(** ** The database cache at capacity *)

Lemma revision_fill (dbs : list D) :
  NoDup (revisionDbKey <$> dbs) →
  length dbs ≤ S maxCachedKeys →
  ∃ c, database_run newDatabaseCache (revision_ops dbs) = Some c ∧
       size (make_if_nil (revisionDbs c)) = length dbs ∧
       (∀ d, d ∈ dbs → make_if_nil (revisionDbs c) !! revisionDbKey d = Some d).
Proof.
  intros Hnd Hlen.
  destruct (revisionDbs_revision_ops dbs newDatabaseCache) as (c & Hrun & Hm).
  exists c. split; [exact Hrun|]. rewrite Hm.
  cbn [newDatabaseCache revisionDbs make_if_nil].
  destruct (put1_all_fresh ((λ d, (revisionDbKey d, d)) <$> dbs) ∅)
    as (Hsz & Hin & _).
  - by rewrite <- list_fmap_compose.
  - intros k _. apply lookup_empty.
  - rewrite map_size_empty, length_fmap. simpl. lia.
  - rewrite map_size_empty, length_fmap in Hsz. split; [exact Hsz|].
    intros d Hd. apply Hin. apply list_elem_of_fmap. by exists d.
Qed.

Lemma state_fill (es : list (DataCacheKey * string * InitialDbState)) :
  NoDup es.*1.*1 →
  length es ≤ S maxCachedKeys →
  ∃ c, database_run newDatabaseCache (state_ops es) = Some c ∧
       size (make_if_nil (initialDbStates c)) = length es ∧
       (∀ k n state, (k, n, state) ∈ es → get2 (initialDbStates c) k n = Some state).
Proof.
  intros Hnd Hlen.
  destruct (initialDbStates_state_ops es newDatabaseCache) as (c & Hrun & Hm).
  exists c. split; [exact Hrun|].
  cbn [newDatabaseCache initialDbStates make_if_nil] in Hm.
  destruct (fill_then_flush ((λ e, (e.1.1, insert e.1.2 e.2)) <$> es))
    as (Hsz & Hin & _).
  { by rewrite (fmap_fst_entries (λ e, insert e.1.2 e.2)). }
  { by rewrite length_fmap. }
  rewrite length_fmap in Hsz. rewrite <- Hm in Hsz, Hin.
  split; [exact Hsz|].
  intros k n state Hel. rewrite <- get2_make_if_nil.
  change (get2 (Some ?m) k ?ln) with ((m !! k) ≫= (.!! ln)).
  rewrite (Hin k (insert n state)).
  - cbn [mbind option_bind]. apply lookup_insert_eq.
  - apply list_elem_of_fmap. by exists (k, n, state).
Qed.

(** X6: the two bounded maps of the database cache follow the same
    capacity rule as the session cache.  From a new cache, up to 65
    databases of distinct key pairs (or 65 initial states of distinct
    snapshot keys) are all found; once 65 are held, the next caching call
    leaves its own entry as the only one. *)
Theorem database_flush_at_66th_key :
  (∀ dbs : list D,
     NoDup (revisionDbKey <$> dbs) →
     length dbs ≤ S maxCachedKeys →
     ∃ c, database_run newDatabaseCache (revision_ops dbs) = Some c ∧
          (∀ d, d ∈ dbs →
             GetCachedRevisionDb c (ToLower (RevisionQualifiedName d)) (RequestedName d)
             = (Some d, true)) ∧
          (length dbs = S maxCachedKeys →
           ∀ d', revisionDbs (CacheRevisionDb c d') = Some {[revisionDbKey d' := d']})) ∧
  (∀ es : list (DataCacheKey * string * InitialDbState),
     NoDup es.*1.*1 →
     length es ≤ S maxCachedKeys →
     ∃ c, database_run newDatabaseCache (state_ops es) = Some c ∧
          (∀ k n state, (k, n, state) ∈ es →
             GetCachedInitialDbState c k n = (state, true)) ∧
          (length es = S maxCachedKeys →
           ∀ k' n' state',
             initialDbStates (CacheInitialDbState c k' n' state')
             = Some {[k' := {[n' := state']}]})).
Proof.
  split.
  - intros dbs Hnd Hlen.
    destruct (revision_fill dbs Hnd Hlen) as (c & Hrun & Hsz & Hin).
    exists c. split; [exact Hrun|]. split.
    + intros d Hd. rewrite GetCachedRevisionDb_lookup.
      specialize (Hin d Hd). unfold revisionDbKey in Hin.
      destruct (revisionDbs c) as [m|]; simpl in *.
      * by rewrite Hin.
      * by rewrite lookup_empty in Hin.
    + intros Hfull d'. rewrite CacheRevisionDb_insert; simpl.
      rewrite evict_big by (rewrite Hsz, Hfull; unfold maxCachedKeys; lia).
      by rewrite insert_empty.
  - intros es Hnd Hlen.
    destruct (state_fill es Hnd Hlen) as (c & Hrun & Hsz & Hin).
    exists c. split; [exact Hrun|]. split.
    + intros k n state Hel.
      by rewrite GetCachedInitialDbState_get2, (Hin k n state).
    + intros Hfull k' n' state'. rewrite CacheInitialDbState_put2; simpl.
      rewrite put2_big by (rewrite Hsz, Hfull; unfold maxCachedKeys; lia).
      by rewrite insert_empty.
Qed.

(** ** The fingerprint map *)

Lemma foldl_insert_fresh {K : Type} `{Countable K} {V : Type} (es : list (K * V)) :
  ∀ m : gmap K V,
    NoDup es.*1 →
    (∀ k, k ∈ es.*1 → m !! k = None) →
    size (foldl (λ acc e, <[e.1 := e.2]> acc) m es) = size m + length es ∧
    (∀ k v, (k, v) ∈ es → foldl (λ acc e, <[e.1 := e.2]> acc) m es !! k = Some v) ∧
    (∀ k, k ∉ es.*1 → foldl (λ acc e, <[e.1 := e.2]> acc) m es !! k = m !! k).
Proof.
  induction es as [|[k v] es IH]; intros m Hnd Hfresh.
  { split; [simpl; lia|]. split; [|done]. intros k v Hin. by apply elem_of_nil in Hin. }
  change (((k, v) :: es).*1) with (k :: es.*1) in *.
  apply NoDup_cons in Hnd as [Hk Hnd].
  assert (m !! k = None) as Hmk by (apply Hfresh; left).
  cbn [foldl fst snd].
  destruct (IH (<[k := v]> m)) as (IHsz & IHin & IHout); [done|..].
  { intros k' Hk'. rewrite lookup_insert_ne by (by intros ->). apply Hfresh. by right. }
  split; [|split].
  - rewrite IHsz, map_size_insert_None by done. simpl. lia.
  - intros k' v' [Heq|Hin]%elem_of_cons.
    + injection Heq as -> ->. rewrite IHout by done. apply lookup_insert_eq.
    + by apply IHin.
  - intros k' Hk'. apply not_elem_of_cons in Hk' as [Hne Hk'].
    rewrite IHout by done. by rewrite lookup_insert_ne.
Qed.

Lemma CacheSessionVars_stores c sv bs transaction :
  sessionVars c = Some sv →
  (GetInitialRoot transaction (dbs_dbName (dbState bs))).2 = true →
  fst <$> CacheSessionVars c bs transaction =
  Some {| revisionDbs := revisionDbs c;
          initialDbStates := initialDbStates c;
          sessionVars :=
            Some (<[dbs_dbName (dbState bs) := fingerprint_of (bs, transaction)]> sv) |}.
Proof.
  intros Hsv Hroot. unfold CacheSessionVars, fingerprint_of. cbn [fst snd].
  rewrite Hsv.
  destruct (GetInitialRoot transaction _) as [rt hasRoot]. simpl in Hroot. subst hasRoot.
  by destruct (comma_ok _ _) as [existingKey found].
Qed.

Lemma sessionVars_session_var_ops calls :
  ∀ c sv,
    sessionVars c = Some sv →
    Forall (λ e, (GetInitialRoot e.2 (dbs_dbName (dbState e.1))).2 = true) calls →
    ∃ c', database_run c (session_var_ops calls) = Some c' ∧
          revisionDbs c' = revisionDbs c ∧
          initialDbStates c' = initialDbStates c ∧
          sessionVars c' =
            Some (foldl (λ acc e, <[e.1 := e.2]> acc) sv
                    ((λ e, (dbs_dbName (dbState e.1), fingerprint_of e)) <$> calls)).
Proof.
  induction calls as [|[bs transaction] calls IH]; intros c sv Hsv Hall.
  { by exists c. }
  apply Forall_cons in Hall as [Hroot Hall].
  cbn [session_var_ops fmap list_fmap database_run database_step fst snd].
  rewrite (CacheSessionVars_stores c sv bs transaction Hsv Hroot).
  cbn [mbind option_bind].
  destruct (IH {| revisionDbs := revisionDbs c;
                  initialDbStates := initialDbStates c;
                  sessionVars :=
                    Some (<[dbs_dbName (dbState bs) := fingerprint_of (bs, transaction)]> sv) |}
              (<[dbs_dbName (dbState bs) := fingerprint_of (bs, transaction)]> sv)
              eq_refl Hall) as (c' & Hrun & Hr & Hi & Hs).
  exists c'. by repeat split.
Qed.

(** X7: the fingerprint map has no capacity check.  From a new cache,
    [CacheSessionVars] calls for any number of distinct database names,
    each with a root reported, leave one fingerprint per name, all of them
    kept, and the two other maps untouched. *)
Theorem fingerprints_never_evicted (calls : list (branchState * DoltTransaction)) :
  NoDup ((λ e, dbs_dbName (dbState e.1)) <$> calls) →
  Forall (λ e, (GetInitialRoot e.2 (dbs_dbName (dbState e.1))).2 = true) calls →
  ∃ c sv,
    database_run newDatabaseCache (session_var_ops calls) = Some c ∧
    sessionVars c = Some sv ∧
    size sv = length calls ∧
    (∀ e, e ∈ calls → sv !! dbs_dbName (dbState e.1) = Some (fingerprint_of e)) ∧
    revisionDbs c = None ∧ initialDbStates c = None.
Proof.
  intros Hnd Hall.
  destruct (sessionVars_session_var_ops calls newDatabaseCache ∅ eq_refl Hall)
    as (c & Hrun & Hr & Hi & Hs).
  destruct (foldl_insert_fresh
              ((λ e, (dbs_dbName (dbState e.1), fingerprint_of e)) <$> calls) ∅)
    as (Hsz & Hin & _).
  { by rewrite <- list_fmap_compose. }
  { intros k _. apply lookup_empty. }
  eexists c, _. split; [exact Hrun|]. split; [exact Hs|].
  split; [|split; [|by split]].
  - by rewrite Hsz, map_size_empty, length_fmap.
  - intros e He. apply Hin. apply list_elem_of_fmap. by exists e.
Qed.

(** X8: fingerprints are kept per database name.  A [CacheSessionVars]
    call for one name does not change what a call for another name
    returns. *)
Theorem fingerprints_per_database (c c' : DatabaseCache) (bs bs' : branchState)
    (transaction transaction' : DoltTransaction) (changed : bool) :
  dbs_dbName (dbState bs') ≠ dbs_dbName (dbState bs) →
  CacheSessionVars c bs' transaction' = Some (c', changed) →
  snd <$> CacheSessionVars c' bs transaction = snd <$> CacheSessionVars c bs transaction.
Proof.
  intros Hne Hcall. unfold CacheSessionVars in Hcall.
  destruct (comma_ok _ _) as [existingKey' found'].
  destruct (GetInitialRoot transaction' _) as [rt' [|]]; simpl in Hcall.
  - destruct (sessionVars c) as [sv|] eqn:Hsv; [|done].
    injection Hcall as <- <-. unfold CacheSessionVars. rewrite Hsv. simpl.
    rewrite lookup_insert_ne by done.
    destruct (comma_ok _ _) as [existingKey found].
    by destruct (GetInitialRoot transaction _) as [rt [|]].
  - by injection Hcall as <- <-.
Qed.

(** X9: [CacheSessionVars] panics in one case only: the fingerprint map
    is nil and the transaction reports a root for the database name. *)
Theorem CacheSessionVars_panics_iff (c : DatabaseCache) (bs : branchState)
    (transaction : DoltTransaction) :
  CacheSessionVars c bs transaction = None ↔
  sessionVars c = None ∧
  (GetInitialRoot transaction (dbs_dbName (dbState bs))).2 = true.
Proof.
  unfold CacheSessionVars.
  destruct (comma_ok _ _) as [existingKey found].
  destruct (GetInitialRoot transaction _) as [rt [|]]; simpl.
  - destruct (sessionVars c); split; try done. by intros [? _].
  - split; [done|]. by intros [_ ?].
Qed.

(** ** Many names under one snapshot key *)

Section OneKeyFacts.
Context {K : Type} `{Countable K} {V : Type}.
Implicit Types fs : list (gmap string V → gmap string V).

Lemma put2_all_at_key (k : K) fs :
  ∀ inner, put2_all {[k := inner]} ((λ f, (k, f)) <$> fs)
           = {[k := foldl (λ acc f, f acc) inner fs]}.
Proof.
  induction fs as [|f fs IH]; intros inner; [done|].
  cbn [fmap list_fmap put2_all foldl fst snd].
  rewrite put2_small by (rewrite map_size_singleton; unfold maxCachedKeys; lia).
  rewrite lookup_singleton_eq, insert_singleton_eq. apply IH.
Qed.

(** Whatever the number of updates under one key, the outer map holds
    that key only and is never flushed. *)
Lemma put2_all_one_key (k : K) fs :
  size (put2_all ∅ ((λ f, (k, f)) <$> fs)) ≤ 1 ∧
  ∀ n, get2 (Some (put2_all ∅ ((λ f, (k, f)) <$> fs))) k n
       = foldl (λ acc f, f acc) ∅ fs !! n.
Proof.
  destruct fs as [|f fs].
  { split; [simpl; rewrite map_size_empty; lia|].
    intros n. unfold get2; simpl. by rewrite lookup_empty. }
  cbn [fmap list_fmap put2_all foldl fst snd].
  rewrite put2_small by (rewrite map_size_empty; lia).
  rewrite lookup_empty, insert_empty. cbn [default].
  pose proof (put2_all_at_key k fs (f ∅)) as Hat.
  unfold put2_all in Hat. rewrite Hat.
  split; [by rewrite map_size_singleton|].
  intros n. unfold get2; simpl. by rewrite lookup_singleton_eq.
Qed.

Lemma foldl_inserts_lookup (g : string → string) (es : list (string * V)) n v :
  NoDup (g <$> es.*1) →
  (n, v) ∈ es →
  foldl (λ acc f, f acc) (∅ : gmap string V) ((λ e, insert (g e.1) e.2) <$> es) !! g n
  = Some v.
Proof.
  induction es as [|[n0 v0] es IH] using rev_ind; [by intros _ ?%elem_of_nil|].
  rewrite !fmap_app, foldl_app. cbn [fmap list_fmap foldl fst snd].
  intros [Hnd [Hdisj _]]%NoDup_app [Hin|Hlast]%elem_of_app.
  - rewrite lookup_insert_ne; [by apply IH|].
    intros Heq. apply (Hdisj (g n)).
    + apply list_elem_of_fmap. exists n. split; [done|].
      apply list_elem_of_fmap. by exists (n, v).
    + rewrite <- Heq. by left.
  - apply list_elem_of_singleton in Hlast as [= -> ->]. apply lookup_insert_eq.
Qed.
End OneKeyFacts.

(** X10: the capacity counts snapshot keys, not names.  Any number of
    names of distinct lower-casing cached under one key of a new cache are
    all found, the outer map holding that single key: nothing is flushed
    however many names there are.  This holds for indexes and for
    tables. *)
Theorem names_under_one_key_unbounded (k : DataCacheKey) :
  (∀ es : list (string * list Index),
     NoDup (ToLower <$> es.*1) →
     let c := session_run newSessionCache (index_ops_at k es) in
     size (make_if_nil (indexes c)) ≤ 1 ∧
     ∀ n idx, (n, idx) ∈ es → GetTableIndexesCache c k n = (idx, true)) ∧
  (∀ es : list (string * option Table),
     NoDup (ToLower <$> es.*1) →
     let c := session_run newSessionCache (table_ops_at k es) in
     size (make_if_nil (tables c)) ≤ 1 ∧
     ∀ n t, (n, t) ∈ es → GetCachedTable c k n = (t, true)).
Proof.
  split.
  - intros es Hnd c.
    assert (make_if_nil (indexes c) =
            put2_all ∅ ((λ f, (k, f)) <$> ((λ e, insert (ToLower e.1) e.2) <$> es)))
      as Hm.
    { unfold c, index_ops_at.
      replace ((λ e : string * list Index, OpCacheTableIndexes k e.1 e.2) <$> es)
        with (index_ops ((λ e, (k, e.1, e.2)) <$> es))
        by (unfold index_ops; by rewrite <- list_fmap_compose).
      rewrite indexes_index_ops. cbn [newSessionCache indexes make_if_nil].
      by rewrite <- !list_fmap_compose. }
    destruct (put2_all_one_key k ((λ e, insert (ToLower e.1) e.2) <$> es))
      as [Hsz Hget].
    rewrite <- Hm in Hsz, Hget. split; [exact Hsz|].
    intros n idx Hel.
    rewrite GetTableIndexesCache_get2, <- get2_make_if_nil, Hget.
    by rewrite (foldl_inserts_lookup ToLower es n idx).
  - intros es Hnd c.
    assert (make_if_nil (tables c) =
            put2_all ∅ ((λ f, (k, f)) <$> ((λ e, insert (ToLower e.1) e.2) <$> es)))
      as Hm.
    { unfold c, table_ops_at.
      replace ((λ e : string * option Table, OpCacheTable k e.1 e.2) <$> es)
        with (table_ops ((λ e, (k, e.1, e.2)) <$> es))
        by (unfold table_ops; by rewrite <- list_fmap_compose).
      rewrite tables_table_ops. cbn [newSessionCache tables make_if_nil].
      by rewrite <- !list_fmap_compose. }
    destruct (put2_all_one_key k ((λ e, insert (ToLower e.1) e.2) <$> es))
      as [Hsz Hget].
    rewrite <- Hm in Hsz, Hget. split; [exact Hsz|].
    intros n t Hel.
    rewrite GetCachedTable_get2, <- get2_make_if_nil, Hget.
    by rewrite (foldl_inserts_lookup ToLower es n t).
Qed.

(** ** The maps of the database cache do not interfere *)

Lemma database_step_fields c op c' :
  database_step c op = Some c' →
  (writes_revisionDbs op = false → revisionDbs c' = revisionDbs c) ∧
  (writes_initialDbStates op = false → initialDbStates c' = initialDbStates c) ∧
  (writes_sessionVars op = false → sessionVars c' = sessionVars c).
Proof.
  destruct op as [database|k n state|bs transaction|]; simpl.
  - intros [= <-]. by rewrite CacheRevisionDb_insert.
  - intros [= <-]. by rewrite CacheInitialDbState_put2.
  - unfold CacheSessionVars.
    destruct (comma_ok _ _) as [existingKey found].
    destruct (GetInitialRoot transaction _) as [rt [|]]; simpl.
    + destruct (sessionVars c); simpl; [|done]. by intros [= <-].
    + by intros [= <-].
  - by intros [= <-].
Qed.

Lemma database_run_fields ops :
  ∀ c c',
    database_run c ops = Some c' →
    (Forall (λ op, writes_revisionDbs op = false) ops →
     revisionDbs c' = revisionDbs c) ∧
    (Forall (λ op, writes_initialDbStates op = false) ops →
     initialDbStates c' = initialDbStates c) ∧
    (Forall (λ op, writes_sessionVars op = false) ops →
     sessionVars c' = sessionVars c).
Proof.
  induction ops as [|op ops IH]; intros c c' Hrun.
  { by injection Hrun as <-. }
  cbn [database_run] in Hrun.
  destruct (database_step c op) as [c1|] eqn:Hstep; [|done].
  cbn [mbind option_bind] in Hrun.
  destruct (IH c1 c' Hrun) as (IHr & IHi & IHs).
  destruct (database_step_fields c op c1 Hstep) as (Hr & Hi & Hs).
  split; [|split]; intros [Hop Hall]%Forall_cons.
  - by rewrite (IHr Hall), (Hr Hop).
  - by rewrite (IHi Hall), (Hi Hop).
  - by rewrite (IHs Hall), (Hs Hop).
Qed.

(** X21: the three maps of the database cache do not interfere.  Along
    any history that ends without a panic and has no [CacheRevisionDb] and
    no [Clear], every revision database lookup returns what it returned
    before; likewise for initial states along histories without
    [CacheInitialDbState] and [Clear]; and along histories without
    [CacheSessionVars] and [Clear] a [CacheSessionVars] call returns the
    same flag as before. *)
Theorem database_maps_independent (c c' : DatabaseCache) (ops : list DatabaseOp) :
  database_run c ops = Some c' →
  (Forall (λ op, writes_revisionDbs op = false) ops →
   ∀ r q, GetCachedRevisionDb c' r q = GetCachedRevisionDb c r q) ∧
  (Forall (λ op, writes_initialDbStates op = false) ops →
   ∀ k n, GetCachedInitialDbState c' k n = GetCachedInitialDbState c k n) ∧
  (Forall (λ op, writes_sessionVars op = false) ops →
   ∀ bs transaction,
     snd <$> CacheSessionVars c' bs transaction
     = snd <$> CacheSessionVars c bs transaction).
Proof.
  intros Hrun. destruct (database_run_fields ops c c' Hrun) as (Hr & Hi & Hs).
  split; [|split]; intros Hall.
  - intros r q. by rewrite !GetCachedRevisionDb_lookup, (Hr Hall).
  - intros k n. by rewrite !GetCachedInitialDbState_get2, (Hi Hall).
  - intros bs transaction. unfold CacheSessionVars. rewrite (Hs Hall).
    destruct (comma_ok _ _) as [existingKey found].
    destruct (GetInitialRoot transaction _) as [rt [|]]; simpl; [|done].
    by destruct (sessionVars c).
Qed.

End Dsess.

(** * Concrete runs

    The caches at [ascii_ToLower], with numbers for index and table
    handles and for initial states, and pairs of names for databases. *)

Ltac by_decide := apply (bool_decide_unpack _); vm_compute; exact I.

(** A run of C1: entries cached under the first sample key survive a table
    call, an index call under another key and a view call under another
    name. *)
Lemma get_after_cache_witness :
  let lower := ascii_ToLower in
  let k := sample_key 1 in
  let ci := CacheTableIndexes lower (@newSessionCache nat nat) k "Users" [1; 2] in
  let ct := CacheTable lower (@newSessionCache nat nat) k "Users" (Some 3) in
  let cv := CacheViews lower (@newSessionCache nat nat) k
              [mkViewDefinition "users" "select 0"; mkViewDefinition "Users" "select 1"] in
  let ops := [OpCacheTable k "users" (Some 4);
              OpCacheTableIndexes (sample_key 2) "USERS" [5];
              OpCacheViews k [mkViewDefinition "Orders" "select 2"]] in
  let ops' := [OpCacheTableIndexes k "users" [6];
               OpCacheTable k "Orders" None] in
  (kept lower (spares_index lower k "Users") ci ops ∧
   GetTableIndexesCache lower (session_run lower ci ops) k "Users" = ([1; 2], true)) ∧
  (kept lower (spares_table lower k "Users") ct ops' ∧
   GetCachedTable lower (session_run lower ct ops') k "Users" = (Some 3, true)) ∧
  (kept lower (spares_view lower k "Users") cv ops' ∧
   GetCachedViewDefinition lower (session_run lower cv ops') k "Users"
   = (mkViewDefinition "Users" "select 1", true)).
Proof.
  intros lower k ci ct cv ops ops'.
  destruct (get_after_cache lower (@newSessionCache nat nat) k "Users")
    as (Hi & Ht & Hv).
  assert (kept lower (spares_index lower k "Users") ci ops) as Ki by by_decide.
  assert (kept lower (spares_table lower k "Users") ct ops') as Kt by by_decide.
  assert (kept lower (spares_view lower k "Users") cv ops') as Kv by by_decide.
  split; [|split].
  - split; [exact Ki|]. exact (Hi [1; 2] ops Ki).
  - split; [exact Kt|]. exact (Ht (Some 3) ops' Kt).
  - split; [exact Kv|].
    apply (Hv [mkViewDefinition "users" "select 0"] (mkViewDefinition "Users" "select 1")
              [] ops'); [reflexivity|constructor|exact Kv].
Defined.

(** C2 as stated fails: after 65 caching calls with 65 distinct keys on a
    new cache, the entry of the first key is still found, in each of the
    three sub-caches, and each outer map holds all 65 keys. *)
Lemma flush_at_65th_key_refuted :
  let lower := ascii_ToLower in
  let ci := session_run lower (@newSessionCache nat nat)
              (index_ops (sample_index_entries 65)) in
  let ct := session_run lower (@newSessionCache nat nat)
              (table_ops (sample_table_entries 65)) in
  let cv := session_run lower (@newSessionCache nat nat)
              (view_ops (sample_view_entries 65)) in
  (length (sample_index_entries 65) = 65 ∧
   NoDup (sample_index_entries 65).*1.*1 ∧
   GetTableIndexesCache lower ci (sample_key 1) "t" = ([1], true) ∧
   GetTableIndexesCache lower ci (sample_key 1) "t" ≠ ([], false) ∧
   size (make_if_nil (indexes ci)) = 65) ∧
  (GetCachedTable lower ct (sample_key 1) "T" = (Some 1, true) ∧
   size (make_if_nil (tables ct)) = 65) ∧
  (ViewsCached cv (sample_key 1) = true ∧
   GetCachedViewDefinition lower cv (sample_key 1) "V" = (sample_view, true) ∧
   size (make_if_nil (views cv)) = 65).
Proof.
  intros lower ci ct cv.
  assert (GetTableIndexesCache lower ci (sample_key 1) "t" = ([1], true)) as Hhit
    by (vm_compute; reflexivity).
  split; [|split].
  - split; [vm_compute; reflexivity|]. split; [by_decide|].
    split; [exact Hhit|]. split; [by rewrite Hhit|vm_compute; reflexivity].
  - split; vm_compute; reflexivity.
  - split; [|split]; vm_compute; reflexivity.
Qed.

(** A run of the amended C2: the same 65 entries are all found, and the
    66th call leaves its own entry only. *)
Lemma flush_at_66th_key_witness :
  let lower := ascii_ToLower in
  let es := sample_index_entries 65 in
  let c' := session_run lower (@newSessionCache nat nat) (index_ops es) in
  let c66 := CacheTableIndexes lower c' (sample_key 66) "T" [66] in
  NoDup es.*1.*1 ∧
  length es ≤ S maxCachedKeys ∧
  length es = S maxCachedKeys ∧
  GetTableIndexesCache lower c' (sample_key 1) "t" = ([1], true) ∧
  GetTableIndexesCache lower c' (sample_key 65) "t" = ([65], true) ∧
  indexes c66 = Some {[sample_key 66 := {["t" := [66]]}]} ∧
  GetTableIndexesCache lower c66 (sample_key 66) "T" = ([66], true) ∧
  GetTableIndexesCache lower c66 (sample_key 1) "t" = ([], false).
Proof.
  intros lower es c' c66.
  assert (NoDup es.*1.*1) as Hnd by by_decide.
  assert (length es ≤ S maxCachedKeys) as Hle by (vm_compute; lia).
  assert (length es = S maxCachedKeys) as Hfull by (vm_compute; reflexivity).
  destruct (proj1 (flush_at_66th_key lower (Index := nat) (Table := nat)) es Hnd Hle)
    as [Hin Hflush].
  destruct (Hflush Hfull (sample_key 66) "T" [66]) as (Hmap & Hnew & Hold).
  split; [exact Hnd|]. split; [exact Hle|]. split; [exact Hfull|].
  split; [apply Hin; by_decide|]. split; [apply Hin; by_decide|].
  split; [exact Hmap|]. split; [exact Hnew|].
  apply Hold. by_decide.
Defined.

(** A run of C3: "Foo" and "foo" lower-case to the same name. *)
Lemma lookups_case_insensitive_witness :
  let lower := ascii_ToLower in
  let c := @newSessionCache nat nat in
  let k := sample_key 7 in
  let v := mkViewDefinition "Foo" "select 1" in
  lower "Foo" = lower "foo" ∧
  GetTableIndexesCache lower (CacheTableIndexes lower c k "Foo" [1]) k "foo" = ([1], true) ∧
  GetCachedTable lower (CacheTable lower c k "Foo" (Some 2)) k "foo" = (Some 2, true) ∧
  GetCachedViewDefinition lower (CacheViews lower c k [v]) k "foo" = (v, true) ∧
  GetTableIndexesCache lower (CacheTableIndexes lower c k "foo" [1]) k "FOO" = ([1], true).
Proof.
  intros lower c k v.
  assert (lower "Foo" = lower "foo") as Heq by reflexivity.
  destruct (lookups_case_insensitive lower c k "Foo" "foo" Heq) as (Hi & Ht & Hv).
  split; [exact Heq|]. split; [apply Hi|]. split; [apply Ht|]. split.
  - apply (Hv [] v []); [reflexivity|constructor].
  - apply (lookups_case_insensitive lower c k "foo" "FOO"). reflexivity.
Defined.

(** A run of C7. *)
Lemma ViewsCached_before_and_after_witness :
  let lower := ascii_ToLower in
  let k := sample_key 1 in
  let before := [OpCacheTable k "t" (Some 1);
                 OpCacheViews (sample_key 2) [sample_view];
                 OpCacheTableIndexes k "t" [1]] in
  let after := [OpCacheViews (sample_key 2) []; OpClearTableCache] in
  Forall (not_CacheViews_of k) before ∧
  ViewsCached (session_run lower (@newSessionCache nat nat) before) k = false ∧
  kept lower no_view_flush (CacheViews lower (@newSessionCache nat nat) k []) after ∧
  ViewsCached (session_run lower (CacheViews lower (@newSessionCache nat nat) k []) after) k
  = true.
Proof.
  intros lower k before after.
  destruct (ViewsCached_before_and_after lower (Index := nat) (Table := nat) k)
    as (Hbefore & _ & Hafter).
  assert (Forall (not_CacheViews_of k) before) as Hb by by_decide.
  assert (kept lower no_view_flush (CacheViews lower (@newSessionCache nat nat) k []) after)
    as Ha by by_decide.
  split; [exact Hb|]. split; [exact (Hbefore before Hb)|].
  split; [exact Ha|]. exact (Hafter _ [] after Ha).
Defined.

(** A run of C4 on a new database cache: first call true, repeated call
    false, call with another head true. *)
Lemma CacheSessionVars_with_root_witness :
  let c := @newDatabaseCache (string * string) nat in
  let bs := {| dbState := {| dbs_dbName := "mydb" |}; bs_head := "refs/heads/main" |} in
  let bs' := {| dbState := {| dbs_dbName := "mydb" |}; bs_head := "refs/heads/dev" |} in
  let transaction := {| GetInitialRoot := λ _, (5%N, true) |} in
  sessionVars c = Some ∅ ∧
  GetInitialRoot transaction (dbs_dbName (dbState bs)) = (5%N, true) ∧
  ∃ c1,
    CacheSessionVars c bs transaction = Some (c1, true) ∧
    CacheSessionVars c1 bs transaction = Some (c1, false) ∧
    snd <$> CacheSessionVars c1 bs' transaction = Some true.
Proof.
  intros c bs bs' transaction.
  assert (sessionVars c = Some ∅) as Hsv by reflexivity.
  assert (GetInitialRoot transaction (dbs_dbName (dbState bs)) = (5%N, true)) as Hroot
    by reflexivity.
  destruct (CacheSessionVars_with_root c ∅ bs transaction 5%N Hsv Hroot)
    as (changed & Hcall & _ & Hfirst & Hrepeat & Hhead).
  split; [exact Hsv|]. split; [exact Hroot|].
  eexists. split; [|split].
  - rewrite Hcall, (Hfirst (lookup_empty _)). reflexivity.
  - exact Hrepeat.
  - destruct (Hhead "refs/heads/dev") as [c2 Hc2]; [by_decide|].
    change bs' with {| dbState := dbState bs; bs_head := "refs/heads/dev" |}.
    rewrite Hc2. reflexivity.
Defined.

(** A run of C5: a stored fingerprint stays when no root is reported. *)
Lemma CacheSessionVars_without_root_witness :
  let c := {| revisionDbs := @None (gmap revisionDbCacheKey (string * string));
              initialDbStates := @None (gmap DataCacheKey (gmap string nat));
              sessionVars :=
                Some {["mydb" := {| root := sample_key 5; head := "refs/heads/main" |}]} |} in
  let bs := {| dbState := {| dbs_dbName := "mydb" |}; bs_head := "refs/heads/dev" |} in
  let transaction := {| GetInitialRoot := λ _, (0%N, false) |} in
  GetInitialRoot transaction (dbs_dbName (dbState bs)) = (0%N, false) ∧
  CacheSessionVars c bs transaction = Some (c, true).
Proof.
  intros c bs transaction.
  assert (GetInitialRoot transaction (dbs_dbName (dbState bs)) = (0%N, false)) as Hroot
    by reflexivity.
  split; [exact Hroot|].
  exact (CacheSessionVars_without_root c bs transaction 0%N Hroot).
Defined.

(** A run of C6: the database ("MyDb/Main", "MyDb/main") is stored under
    ("mydb/main", "MyDb/main"); the revision name as the handle spells it
    misses, and so does the requested name in lower case. *)
Lemma revision_db_exact_match_witness :
  let lower := ascii_ToLower in
  let c := @newDatabaseCache (string * string) nat in
  let db := ("MyDb/Main", "MyDb/main") in
  (GetCachedRevisionDb c "MyDb/Main" "MyDb/main").2 = false ∧
  (GetCachedRevisionDb c "mydb/main" "mydb/main").2 = false ∧
  GetCachedRevisionDb (CacheRevisionDb lower c db) "mydb/main" "MyDb/main" = (Some db, true) ∧
  GetCachedRevisionDb (CacheRevisionDb lower c db) "MyDb/Main" "MyDb/main" = (None, false) ∧
  GetCachedRevisionDb (CacheRevisionDb lower c db) "mydb/main" "mydb/main" = (None, false).
Proof.
  intros lower c db.
  assert ((GetCachedRevisionDb c "MyDb/Main" "MyDb/main").2 = false) as H1 by reflexivity.
  assert ((GetCachedRevisionDb c "mydb/main" "mydb/main").2 = false) as H2 by reflexivity.
  split; [exact H1|]. split; [exact H2|]. split; [|split].
  - exact (proj1 (proj2 (revision_db_exact_match lower c db "" ""))).
  - apply (proj2 (proj2 (revision_db_exact_match lower c db "MyDb/Main" "MyDb/main")) H1).
    by_decide.
  - apply (proj2 (proj2 (revision_db_exact_match lower c db "mydb/main" "mydb/main")) H2).
    by_decide.
Defined.

(** A run of C9: cached as "DB/main", missed as "db/main", although the
    two names lower-case to the same string. *)
Lemma initial_state_names_exact_witness :
  let c := @newDatabaseCache (string * string) nat in
  let k := sample_key 3 in
  ascii_ToLower "DB/main" = ascii_ToLower "db/main" ∧
  (GetCachedInitialDbState 0 c k "db/main").2 = false ∧
  GetCachedInitialDbState 0 (CacheInitialDbState c k "DB/main" 42) k "DB/main" = (42, true) ∧
  GetCachedInitialDbState 0 (CacheInitialDbState c k "DB/main" 42) k "db/main" = (0, false).
Proof.
  intros c k.
  assert ((GetCachedInitialDbState 0 c k "db/main").2 = false) as Hmiss by reflexivity.
  destruct (initial_state_names_exact 0 c k "DB/main" "db/main" 42)
    as (Hsame & _ & Hmain).
  split; [reflexivity|]. split; [exact Hmiss|]. split; [exact Hsame|].
  exact (Hmain Hmiss).
Defined.

(** A run of C10: 65 databases of distinct ASCII names ("aa/main",
    "ab/main", ...) fill the revision database map of a new cache to 65
    keys, and a 66th call brings it back to one key. *)
Lemma outer_maps_bounded_witness :
  let lower := ascii_ToLower in
  let dbs := (λ i : nat, (sample_name i +:+ "/main", "db")) <$> seq 0 65 in
  Forall (λ d, ascii_only d.1 = true) dbs ∧
  NoDup (revisionDbKey lower <$> dbs) ∧
  length dbs = S maxCachedKeys ∧
  (∃ c : @DatabaseCache (string * string) nat,
     database_run lower newDatabaseCache (revision_ops dbs) = Some c ∧
     size (make_if_nil (revisionDbs c)) = S maxCachedKeys ∧
     database_bounded c ∧
     database_bounded (CacheRevisionDb lower c ("db/other", "db")) ∧
     size (make_if_nil (revisionDbs (CacheRevisionDb lower c ("db/other", "db")))) = 1).
Proof.
  intros lower dbs.
  assert (NoDup (revisionDbKey lower <$> dbs)) as Hnd by by_decide.
  assert (length dbs = S maxCachedKeys) as Hfull by (vm_compute; reflexivity).
  pose proof (outer_maps_bounded lower (Index := nat) (Table := nat)
                (D := string * string) 0)
    as (_ & _ & Hstep & Hrun & _ & _ & _ & _ & Htight).
  destruct (Htight dbs Hnd Hfull) as (c & Hc & Hsz).
  split; [by_decide|]. split; [exact Hnd|]. split; [exact Hfull|].
  exists c. split; [exact Hc|]. split; [exact Hsz|].
  assert (database_bounded c) as Hb.
  { destruct (Hrun (revision_ops dbs)) as (c' & Hc' & Hb'). congruence. }
  split; [exact Hb|]. split.
  - apply (Hstep c (OpCacheRevisionDb ("db/other", "db"))); [exact Hb|reflexivity].
  - rewrite CacheRevisionDb_insert; simpl. rewrite evict_big by (rewrite Hsz; unfold maxCachedKeys; lia).
    by rewrite insert_empty, map_size_singleton.
Defined.

(** A run of X4: after a clear, 65 tables go in again and are found. *)
Lemma ClearTableCache_drops_all_tables_witness :
  let lower := ascii_ToLower in
  let c := session_run lower (@newSessionCache nat nat)
             (table_ops (sample_table_entries 65)) in
  let es := sample_table_entries 65 in
  GetCachedTable lower c (sample_key 1) "T" = (Some 1, true) ∧
  GetCachedTable lower (ClearTableCache c) (sample_key 1) "T" = (None, false) ∧
  NoDup es.*1.*1 ∧
  length es ≤ S maxCachedKeys ∧
  (sample_key 65, "T", Some 65) ∈ es ∧
  GetCachedTable lower (session_run lower (ClearTableCache c) (table_ops es))
    (sample_key 65) "T" = (Some 65, true).
Proof.
  intros lower c es.
  destruct (ClearTableCache_drops_all_tables lower c) as (Hmiss & _ & Hrefill).
  assert (NoDup es.*1.*1) as Hnd by by_decide.
  assert (length es ≤ S maxCachedKeys) as Hle by (vm_compute; lia).
  assert ((sample_key 65, "T", Some 65) ∈ es) as Hel by by_decide.
  split; [vm_compute; reflexivity|]. split; [apply Hmiss|].
  split; [exact Hnd|]. split; [exact Hle|]. split; [exact Hel|].
  exact (Hrefill es Hnd Hle _ _ _ Hel).
Defined.

(** A run of X5: the hit under "users" comes from the call with "Users". *)
Lemma hits_were_cached_witness :
  let lower := ascii_ToLower in
  let k := sample_key 1 in
  let ops := [OpCacheTable k "t" (Some 1);
              OpCacheTableIndexes k "Users" [1; 2];
              OpCacheViews k [sample_view]] in
  GetTableIndexesCache lower (session_run lower (@newSessionCache nat nat) ops) k "users"
  = ([1; 2], true) ∧
  ∃ n', OpCacheTableIndexes k n' [1; 2] ∈ ops ∧ lower n' = lower "users".
Proof.
  intros lower k ops.
  assert (GetTableIndexesCache lower (session_run lower (@newSessionCache nat nat) ops)
            k "users" = ([1; 2], true)) as Hhit by (vm_compute; reflexivity).
  split; [exact Hhit|].
  exact (proj1 (hits_were_cached lower ops k "users") [1; 2] Hhit).
Defined.

(** A run of X6 on 65 databases of distinct ASCII names ("aa/main",
    "ab/main", ...), and 65 initial states of distinct snapshot keys. *)
Lemma database_flush_at_66th_key_witness :
  let lower := ascii_ToLower in
  let dbs := (λ i : nat, (sample_name i +:+ "/main", "db")) <$> seq 0 65 in
  let es := (λ i : nat, (sample_key i, "aa/main", i)) <$> seq 1 65 in
  Forall (λ d, ascii_only d.1 = true) dbs ∧
  NoDup (revisionDbKey lower <$> dbs) ∧
  length dbs ≤ S maxCachedKeys ∧
  length dbs = S maxCachedKeys ∧
  ("aa/main", "db") ∈ dbs ∧
  (∃ c : @DatabaseCache (string * string) nat,
     database_run lower newDatabaseCache (revision_ops dbs) = Some c ∧
     GetCachedRevisionDb c "aa/main" "db" = (Some ("aa/main", "db"), true) ∧
     revisionDbs (CacheRevisionDb lower c ("zz/main", "db"))
     = Some {[revisionDbKey lower ("zz/main", "db") := ("zz/main", "db")]} ∧
     GetCachedRevisionDb (CacheRevisionDb lower c ("zz/main", "db")) "aa/main" "db"
     = (None, false)) ∧
  NoDup es.*1.*1 ∧
  length es = S maxCachedKeys ∧
  (∃ c : @DatabaseCache (string * string) nat,
     database_run lower newDatabaseCache (state_ops es) = Some c ∧
     GetCachedInitialDbState 0 c (sample_key 1) "aa/main" = (1, true) ∧
     initialDbStates (CacheInitialDbState c (sample_key 66) "aa/main" 66)
     = Some {[sample_key 66 := {["aa/main" := 66]}]}).
Proof.
  intros lower dbs es.
  assert (NoDup (revisionDbKey lower <$> dbs)) as Hnd by by_decide.
  assert (length dbs ≤ S maxCachedKeys) as Hle by (vm_compute; lia).
  assert (length dbs = S maxCachedKeys) as Hfull by (vm_compute; reflexivity).
  assert (("aa/main", "db") ∈ dbs) as Hel by by_decide.
  assert (NoDup es.*1.*1) as Hnd' by by_decide.
  assert (length es ≤ S maxCachedKeys) as Hle' by (vm_compute; lia).
  assert (length es = S maxCachedKeys) as Hfull' by (vm_compute; reflexivity).
  assert ((sample_key 1, "aa/main", 1) ∈ es) as Hel' by by_decide.
  destruct (database_flush_at_66th_key lower (D := string * string) 0)
    as [Hrevision Hstate].
  destruct (Hrevision dbs Hnd Hle) as (c & Hrun & Hin & Hflush).
  destruct (Hstate es Hnd' Hle') as (c' & Hrun' & Hin' & Hflush').
  split; [by_decide|].
  split; [exact Hnd|]. split; [exact Hle|]. split; [exact Hfull|]. split; [exact Hel|].
  split.
  { exists c. split; [exact Hrun|]. split; [exact (Hin ("aa/main", "db") Hel)|].
    split; [exact (Hflush Hfull ("zz/main", "db"))|].
    rewrite GetCachedRevisionDb_lookup, (Hflush Hfull ("zz/main", "db")).
    vm_compute. reflexivity. }
  split; [exact Hnd'|]. split; [exact Hfull'|].
  exists c'. split; [exact Hrun'|]. split; [exact (Hin' _ _ _ Hel')|].
  exact (Hflush' Hfull' (sample_key 66) "aa/main" 66).
Defined.

(** A run of X7: 100 database names, 100 fingerprints. *)
Lemma fingerprints_never_evicted_witness :
  let calls :=
    (λ i : nat,
       ({| dbState := {| dbs_dbName := String (ascii_of_nat i) "" |};
           bs_head := "refs/heads/main" |},
        {| GetInitialRoot := λ _, (7%N, true) |})) <$> seq 100 100 in
  NoDup ((λ e, dbs_dbName (dbState e.1)) <$> calls) ∧
  Forall (λ e, (GetInitialRoot e.2 (dbs_dbName (dbState e.1))).2 = true) calls ∧
  ∃ (c : @DatabaseCache (string * string) nat) sv,
    database_run ascii_ToLower newDatabaseCache (session_var_ops calls) = Some c ∧
    sessionVars c = Some sv ∧
    size sv = 100.
Proof.
  intros calls.
  assert (NoDup ((λ e, dbs_dbName (dbState e.1)) <$> calls)) as Hnd by by_decide.
  assert (Forall (λ e, (GetInitialRoot e.2 (dbs_dbName (dbState e.1))).2 = true) calls)
    as Hall.
  { apply Forall_fmap, Forall_forall. by intros i _. }
  destruct (fingerprints_never_evicted ascii_ToLower (D := string * string)
              (InitialDbState := nat) calls Hnd Hall)
    as (c & sv & Hrun & Hsv & Hsz & _).
  split; [exact Hnd|]. split; [exact Hall|].
  exists c, sv. split; [exact Hrun|]. split; [exact Hsv|].
  rewrite Hsz. vm_compute. reflexivity.
Defined.

(** A run of X8: a call for "other" between two calls for "mydb". *)
Lemma fingerprints_per_database_witness :
  let c := {| revisionDbs := @None (gmap revisionDbCacheKey (string * string));
              initialDbStates := @None (gmap DataCacheKey (gmap string nat));
              sessionVars :=
                Some {["mydb" := {| root := sample_key 5; head := "refs/heads/main" |}]} |} in
  let bs := {| dbState := {| dbs_dbName := "mydb" |}; bs_head := "refs/heads/main" |} in
  let bs' := {| dbState := {| dbs_dbName := "other" |}; bs_head := "refs/heads/main" |} in
  let transaction := {| GetInitialRoot := λ _, (5%N, true) |} in
  dbs_dbName (dbState bs') ≠ dbs_dbName (dbState bs) ∧
  ∃ c', CacheSessionVars c bs' transaction = Some (c', true) ∧
        snd <$> CacheSessionVars c' bs transaction = Some false.
Proof.
  intros c bs bs' transaction.
  assert (dbs_dbName (dbState bs') ≠ dbs_dbName (dbState bs)) as Hne by by_decide.
  split; [exact Hne|]. eexists. split; [reflexivity|].
  rewrite (fingerprints_per_database c _ bs bs' transaction transaction true Hne eq_refl).
  reflexivity.
Defined.

(** A run of X10: 150 index names and 150 table names of two lower-case
    ASCII letters ("aa", "ab", ...) under one key. *)
Lemma names_under_one_key_unbounded_witness :
  let lower := ascii_ToLower in
  let es := (λ i : nat, (sample_name i, [i])) <$> seq 0 150 in
  let ts := (λ i : nat, (sample_name i, Some i)) <$> seq 0 150 in
  let c := session_run lower (@newSessionCache nat nat) (index_ops_at (sample_key 1) es) in
  let c' := session_run lower (@newSessionCache nat nat) (table_ops_at (sample_key 1) ts) in
  Forall (λ e, ascii_only e.1 = true) es ∧
  length es = 150 ∧
  NoDup (lower <$> es.*1) ∧
  ("aa", [0]) ∈ es ∧
  ("ft", [149]) ∈ es ∧
  size (make_if_nil (indexes c)) ≤ 1 ∧
  GetTableIndexesCache lower c (sample_key 1) "aa" = ([0], true) ∧
  GetTableIndexesCache lower c (sample_key 1) "ft" = ([149], true) ∧
  NoDup (lower <$> ts.*1) ∧
  ("aa", Some 0) ∈ ts ∧
  size (make_if_nil (tables c')) ≤ 1 ∧
  GetCachedTable lower c' (sample_key 1) "aa" = (Some 0, true).
Proof.
  intros lower es ts c c'.
  assert (NoDup (lower <$> es.*1)) as Hnd by by_decide.
  assert (("aa", [0]) ∈ es) as Hel by by_decide.
  assert (("ft", [149]) ∈ es) as Hel2 by by_decide.
  assert (NoDup (lower <$> ts.*1)) as Hnd' by by_decide.
  assert (("aa", Some 0) ∈ ts) as Hel' by by_decide.
  destruct (names_under_one_key_unbounded lower (Index := nat) (Table := nat)
              (sample_key 1)) as [Hindexes Htables].
  destruct (Hindexes es Hnd) as [Hsz Hget].
  destruct (Htables ts Hnd') as [Hsz' Hget'].
  split; [by_decide|]. split; [vm_compute; reflexivity|].
  split; [exact Hnd|]. split; [exact Hel|]. split; [exact Hel2|].
  split; [exact Hsz|]. split; [exact (Hget "aa" [0] Hel)|].
  split; [exact (Hget "ft" [149] Hel2)|].
  split; [exact Hnd'|]. split; [exact Hel'|]. split; [exact Hsz'|].
  exact (Hget' "aa" (Some 0) Hel').
Defined.


(** A run of X3: 66 table calls, which flush the table map, and a clear
    leave a cached index list and a cached view in place. *)
Lemma sub_caches_independent_witness :
  let lower := ascii_ToLower in
  let k := sample_key 1 in
  let c := CacheViews lower
             (CacheTableIndexes lower (@newSessionCache nat nat) k "t" [1]) k [sample_view] in
  let ops := (table_ops (sample_table_entries 66) ++ [OpClearTableCache])%list in
  Forall (λ op, writes_indexes op = false) ops ∧
  Forall (λ op, writes_views op = false) ops ∧
  GetTableIndexesCache lower (session_run lower c ops) k "T" = ([1], true) ∧
  GetCachedViewDefinition lower (session_run lower c ops) k "v" = (sample_view, true).
Proof.
  intros lower k c ops.
  assert (Forall (λ op, writes_indexes op = false) ops) as Hi by by_decide.
  assert (Forall (λ op, writes_views op = false) ops) as Hv by by_decide.
  destruct (sub_caches_independent lower c ops k "T") as (Hidx & _ & _).
  destruct (sub_caches_independent lower c ops k "v") as (_ & _ & Hview).
  split; [exact Hi|]. split; [exact Hv|]. split.
  - rewrite (Hidx Hi). vm_compute. reflexivity.
  - rewrite (proj1 (Hview Hv)). vm_compute. reflexivity.
Defined.

(** A run of X21: fingerprint and initial-state calls leave a cached
    revision database in place. *)
Lemma database_maps_independent_witness :
  let lower := ascii_ToLower in
  let c := CacheRevisionDb lower (@newDatabaseCache (string * string) nat)
             ("MyDb/main", "mydb/main") in
  let ops := [OpCacheSessionVars
                {| dbState := {| dbs_dbName := "mydb" |}; bs_head := "refs/heads/main" |}
                {| GetInitialRoot := λ _, (5%N, true) |};
              OpCacheInitialDbState (sample_key 5) "mydb/main" 1] in
  Forall (λ op, writes_revisionDbs op = false) ops ∧
  ∃ c', database_run lower c ops = Some c' ∧
        GetCachedRevisionDb c' "mydb/main" "mydb/main"
        = (Some ("MyDb/main", "mydb/main"), true).
Proof.
  intros lower c ops.
  assert (Forall (λ op, writes_revisionDbs op = false) ops) as Hall by by_decide.
  split; [exact Hall|]. eexists. split; [reflexivity|].
  rewrite (proj1 (database_maps_independent lower 0 c _ ops eq_refl) Hall).
  vm_compute. reflexivity.
Defined.

(** * Facts about the branch actions *)

Section ActionsFacts.
Context `{Dolt}.

Lemma errors_Is_refl (e : error) : errors_Is e e = true.
Proof. destruct e; cbn [errors_Is]; by rewrite bool_decide_eq_true_2. Qed.

(** What [CopyBranchOnDB] returns when the target exists and the copy is
    not forced: an error, with the world as it was. *)
Lemma CopyBranchOnDB_existing_target (w : World) (oldBranch newBranch : string)
    (rsc : option ReplicationStatusController) :
  HasRef w (NewBranchRef newBranch) = Ok true →
  ∃ e, CopyBranchOnDB w oldBranch newBranch false rsc = (w, Some e).
Proof.
  intros Hnew. unfold CopyBranchOnDB. rewrite Hnew.
  destruct (HasRef w (NewBranchRef oldBranch)) as [[|]|e]; simpl; eauto.
Qed.

Lemma CreateBranchOnDB_existing_target (w : World) (newBranch startPt : string)
    (headRef : option DoltRef) (rsc : option ReplicationStatusController) :
  HasRef w (NewBranchRef newBranch) = Ok true →
  CreateBranchOnDB w newBranch startPt false headRef rsc = (w, Some ErrAlreadyExists).
Proof. intros Hnew. unfold CreateBranchOnDB. by rewrite Hnew. Qed.

(** X11: without [force], no action writes over an existing branch.  When
    the target branch exists, copying, renaming and creating all return an
    error and leave the world as it was; [CreateBranchOnDB] returns
    [ErrAlreadyExists]. *)
Theorem no_overwrite_without_force (w : World) (oldBranch newBranch startPt : string)
    (headRef : option DoltRef) (rsc : option ReplicationStatusController) :
  HasRef w (NewBranchRef newBranch) = Ok true →
  (∃ e, CopyBranchOnDB w oldBranch newBranch false rsc = (w, Some e)) ∧
  (∃ e, CopyBranch w oldBranch newBranch false = (w, Some e)) ∧
  (∃ e, RenameBranch w oldBranch newBranch false rsc = (w, Some e)) ∧
  CreateBranchOnDB w newBranch startPt false headRef rsc = (w, Some ErrAlreadyExists) ∧
  (∃ e, createBranch w newBranch startPt false rsc = (w, Some e)) ∧
  (∃ e, CreateBranchWithStartPt w newBranch startPt false rsc = (w, Some e)).
Proof.
  intros Hnew.
  assert (∃ e, createBranch w newBranch startPt false rsc = (w, Some e)) as Hcreate.
  { unfold createBranch. destruct (CWBHeadRef w) as [headRef'|e]; [|eauto].
    rewrite CreateBranchOnDB_existing_target by done. eauto. }
  split; [by apply CopyBranchOnDB_existing_target|].
  split; [by apply CopyBranchOnDB_existing_target|].
  split.
  { destruct (CopyBranchOnDB_existing_target w oldBranch newBranch rsc Hnew) as [e He].
    exists e. unfold RenameBranch. by rewrite He. }
  split; [by apply CreateBranchOnDB_existing_target|].
  split; [exact Hcreate|].
  destruct Hcreate as [e He]. unfold CreateBranchWithStartPt. rewrite He.
  repeat case_match; eauto.
Qed.

(** X12: a branch is written only after every check has passed.  Whatever
    [CopyBranchOnDB] and [CreateBranchOnDB] return, either the world is as
    it was and an error is returned, or the source existed (for a copy),
    the target was absent or the call forced, the new name was valid, the
    start commit resolved, and the outcome is that of the one
    [NewBranchAtCommit] call. *)
Theorem branch_written_only_after_checks (w w' : World) (newBranch : string)
    (force : bool) (rsc : option ReplicationStatusController) (r : option error) :
  (∀ oldBranch,
     CopyBranchOnDB w oldBranch newBranch force rsc = (w', r) →
     (w' = w ∧ is_Some r) ∨
     (HasRef w (NewBranchRef oldBranch) = Ok true ∧
      (force = true ∨ HasRef w (NewBranchRef newBranch) = Ok false) ∧
      IsValidUserBranchName newBranch = true ∧
      ∃ cm, Resolve w Ddb (NewCommitSpec oldBranch).1 None = Ok cm ∧
            NewBranchAtCommit w (NewBranchRef newBranch) cm rsc = (w', r))) ∧
  (∀ startingPoint headRef,
     CreateBranchOnDB w newBranch startingPoint force headRef rsc = (w', r) →
     (w' = w ∧ is_Some r) ∨
     ((force = true ∨ HasRef w (NewBranchRef newBranch) = Ok false) ∧
      IsValidUserBranchName newBranch = true ∧
      ∃ cs cm, NewCommitSpec startingPoint = (cs, None) ∧
               Resolve w Ddb cs headRef = Ok cm ∧
               NewBranchAtCommit w (NewBranchRef newBranch) cm rsc = (w', r))).
Proof.
  split.
  - intros oldBranch. unfold CopyBranchOnDB.
    destruct (HasRef w (NewBranchRef oldBranch)) as [hasOld|e]; [|intros [= <- <-]; eauto].
    destruct (HasRef w (NewBranchRef newBranch)) as [hasNew|e]; [|intros [= <- <-]; eauto].
    destruct hasOld; simpl; [|intros [= <- <-]; eauto].
    destruct (negb force && hasNew) eqn:Hforce; [intros [= <- <-]; eauto|].
    destruct (IsValidUserBranchName newBranch) eqn:Hvalid; simpl;
      [|intros [= <- <-]; eauto].
    destruct (NewCommitSpec oldBranch) as [cs e0]; simpl.
    destruct (Resolve w Ddb cs None) as [cm|e] eqn:Hres; [|intros [= <- <-]; eauto].
    intros Hwrite. right. split; [done|]. split; [|split; [done|by exists cm]].
    destruct force, hasNew; simpl in Hforce; auto; done.
  - intros startingPoint headRef. unfold CreateBranchOnDB.
    destruct (HasRef w (NewBranchRef newBranch)) as [hasRef|e]; [|intros [= <- <-]; eauto].
    destruct (negb force && hasRef) eqn:Hforce; [intros [= <- <-]; eauto|].
    destruct (IsValidUserBranchName newBranch) eqn:Hvalid; simpl;
      [|intros [= <- <-]; eauto].
    destruct (NewCommitSpec startingPoint) as [cs [e0|]]; [intros [= <- <-]; eauto|].
    destruct (Resolve w Ddb cs headRef) as [cm|e] eqn:Hres; [|intros [= <- <-]; eauto].
    intros Hwrite. right. split; [|split; [done|]].
    { destruct force, hasRef; simpl in Hforce; auto; done. }
    exists cs, cm. split; [done|]. split; [done|].
    by destruct (NewBranchAtCommit w (NewBranchRef newBranch) cm rsc) as [w1 [e1|]].
Qed.

(** X13: the source branch must exist, and this is checked before
    anything about the target: when it does not (and the existence of the
    target could be read), copying and renaming return
    [ErrBranchNotFound] with the world as it was, forced or not, whatever
    the new name. *)
Theorem missing_source_is_reported (w : World) (oldBranch newBranch : string)
    (force hasNew : bool) (rsc : option ReplicationStatusController) :
  HasRef w (NewBranchRef oldBranch) = Ok false →
  HasRef w (NewBranchRef newBranch) = Ok hasNew →
  CopyBranchOnDB w oldBranch newBranch force rsc = (w, Some ErrBranchNotFound) ∧
  CopyBranch w oldBranch newBranch force = (w, Some ErrBranchNotFound) ∧
  RenameBranch w oldBranch newBranch force rsc = (w, Some ErrBranchNotFound).
Proof.
  intros Hold Hnew.
  assert (∀ rsc', CopyBranchOnDB w oldBranch newBranch force rsc'
                  = (w, Some ErrBranchNotFound)) as Hcopy.
  { intros rsc'. unfold CopyBranchOnDB. by rewrite Hold, Hnew. }
  split; [apply Hcopy|]. split; [apply Hcopy|].
  unfold RenameBranch. by rewrite Hcopy.
Qed.

(** X14: the checked-out branch is never deleted locally.  When the
    current head is the branch named, a delete that is not remote returns
    [ErrCOBranchDelete] with the world as it was, forced or not; the
    database is not even asked whether the branch exists. *)
Theorem checked_out_branch_is_kept (w : World) (brName : string)
    (opts : DeleteOptions) (rsc : option ReplicationStatusController)
    (headRef : DoltRef) :
  Remote opts = false →
  CWBHeadRef w = Ok headRef →
  ref_Equals headRef (NewBranchRef brName) = true →
  DeleteBranch w brName opts rsc = (w, Some ErrCOBranchDelete) ∧
  DeleteBranch w brName {| Force := true; Remote := false |} rsc
  = (w, Some ErrCOBranchDelete).
Proof.
  intros Hlocal Hhead Heq. unfold DeleteBranch. simpl. by rewrite Hlocal, Hhead, Heq.
Qed.

(** X15: nothing is deleted unless the branch exists and its merge check
    passed or was waived.  Whatever [DeleteBranchOnDB] returns, either the
    world is as it was and an error is returned, or the ref existed and
    the call was forced, or remote, or the validator chosen by the tracked
    branches (upstream if the branch has one, current working branch
    otherwise) returned no error. *)
Theorem delete_only_after_checks (w w' : World) (branchRef : DoltRef)
    (opts : DeleteOptions) (rsc : option ReplicationStatusController)
    (r : option error) :
  DeleteBranchOnDB w branchRef opts rsc = (w', r) →
  (w' = w ∧ is_Some r) ∨
  (HasRef w branchRef = Ok true ∧
   (Force opts = true ∨ Remote opts = true ∨
    ∃ trackedBranches,
      GetBranches w = Ok trackedBranches ∧
      match trackedBranches !! GetPath branchRef with
      | Some trackedBranch =>
        validateBranchMergedIntoUpstream w branchRef (bc_Remote trackedBranch)
      | None => validateBranchMergedIntoCurrentWorkingBranch w branchRef
      end = None)).
Proof.
  unfold DeleteBranchOnDB.
  destruct (HasRef w branchRef) as [[|]|e]; simpl; [|intros [= <- <-]; eauto..].
  destruct (Force opts) eqn:Hforce; simpl; [intros _; right; auto|].
  destruct (Remote opts) eqn:Hremote; simpl; [intros _; right; auto|].
  destruct (GetBranches w) as [trackedBranches|e]; [|intros [= <- <-]; eauto].
  destruct (match trackedBranches !! GetPath branchRef with
            | Some trackedBranch =>
              validateBranchMergedIntoUpstream w branchRef (bc_Remote trackedBranch)
            | None => validateBranchMergedIntoCurrentWorkingBranch w branchRef
            end) as [e|] eqn:Hmerged; [intros [= <- <-]; eauto|].
  intros _. right. split; [done|]. right. right. by exists trackedBranches.
Qed.

(** The verdict both validators draw from [CanFastForwardTo]. *)
Lemma fast_forward_verdict (ff : result bool) :
  let verdict :=
    match ff with
    | Err err =>
      if errors_Is err ErrUpToDate then None
      else if errors_Is err ErrIsAhead then Some ErrUnmergedBranch
      else Some err
    | Ok canFF => if negb canFF then Some ErrUnmergedBranch else None
    end in
  (verdict = None ↔
   ff = Ok true ∨ ∃ e, ff = Err e ∧ errors_Is e ErrUpToDate = true) ∧
  (ff = Ok false → verdict = Some ErrUnmergedBranch) ∧
  (∀ e, ff = Err e → errors_Is e ErrUpToDate = false →
        verdict = Some (if errors_Is e ErrIsAhead then ErrUnmergedBranch else e)).
Proof.
  destruct ff as [[|]|e]; simpl.
  - split; [split; eauto|]. split; [done|]. by intros e [=].
  - split; [split; [done|]|].
    + intros [[=]|(e & [=] & _)].
    + split; [done|]. by intros e [=].
  - split; [|split; [done|]].
    + destruct (errors_Is e ErrUpToDate) eqn:Hup.
      * split; [|done]. intros _. right. by exists e.
      * split.
        -- by destruct (errors_Is e ErrIsAhead).
        -- intros [[=]|(e' & [= <-] & Hup')]. congruence.
    + intros e' [= <-] ->. by destruct (errors_Is e ErrIsAhead).
Qed.

(** With both heads resolved, the validator is the verdict on their
    fast-forward check. *)
Lemma validate_working_branch_resolved (w : World) (branch : DoltRef)
    (branchSpec cwbCs : option CommitSpec) (headRef : DoltRef)
    (branchHead cwbHead : Commit) :
  NewCommitSpec (GetPath branch) = (branchSpec, None) →
  Resolve w Ddb branchSpec None = Ok branchHead →
  NewCommitSpec "HEAD" = (cwbCs, None) →
  CWBHeadRef w = Ok headRef →
  Resolve w Ddb cwbCs (Some headRef) = Ok cwbHead →
  validateBranchMergedIntoCurrentWorkingBranch w branch =
  match CanFastForwardTo w branchHead cwbHead with
  | Err err =>
    if errors_Is err ErrUpToDate then None
    else if errors_Is err ErrIsAhead then Some ErrUnmergedBranch
    else Some err
  | Ok isMerged => if negb isMerged then Some ErrUnmergedBranch else None
  end.
Proof.
  intros Hspec Hbranch Hhead Hcwb Hres.
  unfold validateBranchMergedIntoCurrentWorkingBranch.
  by rewrite Hspec, Hbranch, Hhead, Hcwb, Hres.
Qed.

(** X16: when both heads resolve, a branch counts as merged into the
    current working branch exactly when its head can fast-forward to HEAD
    or the check reports (possibly wrapped) [ErrUpToDate].  A negative
    answer and an [ErrIsAhead] are both reported as [ErrUnmergedBranch];
    any other error of the check is returned as it is. *)
Theorem merged_into_working_branch_verdict (w : World) (branch : DoltRef)
    (branchSpec cwbCs : option CommitSpec) (headRef : DoltRef)
    (branchHead cwbHead : Commit) :
  NewCommitSpec (GetPath branch) = (branchSpec, None) →
  Resolve w Ddb branchSpec None = Ok branchHead →
  NewCommitSpec "HEAD" = (cwbCs, None) →
  CWBHeadRef w = Ok headRef →
  Resolve w Ddb cwbCs (Some headRef) = Ok cwbHead →
  let ff := CanFastForwardTo w branchHead cwbHead in
  let verdict := validateBranchMergedIntoCurrentWorkingBranch w branch in
  (verdict = None ↔
   ff = Ok true ∨ ∃ e, ff = Err e ∧ errors_Is e ErrUpToDate = true) ∧
  (ff = Ok false → verdict = Some ErrUnmergedBranch) ∧
  (∀ e, ff = Err e → errors_Is e ErrUpToDate = false →
        verdict = Some (if errors_Is e ErrIsAhead then ErrUnmergedBranch else e)).
Proof.
  intros Hspec Hbranch Hhead Hcwb Hres ff verdict. unfold verdict.
  rewrite (validate_working_branch_resolved w branch branchSpec cwbCs headRef
             branchHead cwbHead) by done.
  apply (fast_forward_verdict ff).
Qed.

(** X17: the same verdict against the upstream.  When the remote of the
    tracked branch is not configured the validator returns the error
    "remote <name> not found"; when the remote database and both heads
    resolve, the branch counts as merged exactly when the local head can
    fast-forward to the remote head or the check reports [ErrUpToDate]. *)
Theorem merged_into_upstream_verdict (w : World) (branch : DoltRef)
    (remoteName : string) (remotes : gmap string EnvRemote) :
  GetRemotes w = Ok remotes →
  (remotes !! remoteName = None →
   validateBranchMergedIntoUpstream w branch remoteName
   = Some (Errorf ("remote " +:+ remoteName +:+ " not found"))) ∧
  (∀ remote remoteDb cs remoteBranchHead localBranchHead,
     remotes !! remoteName = Some remote →
     GetRemoteDB w remote false = Ok remoteDb →
     NewCommitSpec (GetPath branch) = (cs, None) →
     Resolve w remoteDb cs None = Ok remoteBranchHead →
     Resolve w Ddb cs None = Ok localBranchHead →
     let ff := CanFastForwardTo w localBranchHead remoteBranchHead in
     let verdict := validateBranchMergedIntoUpstream w branch remoteName in
     (verdict = None ↔
      ff = Ok true ∨ ∃ e, ff = Err e ∧ errors_Is e ErrUpToDate = true) ∧
     (ff = Ok false → verdict = Some ErrUnmergedBranch) ∧
     (∀ e, ff = Err e → errors_Is e ErrUpToDate = false →
           verdict = Some (if errors_Is e ErrIsAhead then ErrUnmergedBranch else e))).
Proof.
  intros Hremotes. split.
  - intros Hnone. unfold validateBranchMergedIntoUpstream. by rewrite Hremotes, Hnone.
  - intros remote remoteDb cs remoteBranchHead localBranchHead
      Hremote Hdb Hspec Hrem Hloc ff verdict.
    unfold verdict, validateBranchMergedIntoUpstream.
    rewrite Hremotes, Hremote, Hdb, Hspec, Hrem, Hloc.
    apply (fast_forward_verdict ff).
Qed.

(** X18: an unmerged branch is not deleted without force.  For a local,
    unforced delete of an existing branch without upstream, when both
    heads resolve and the branch head cannot fast-forward to HEAD,
    [DeleteBranchOnDB] and [DeleteBranch] return [ErrUnmergedBranch] and
    the world is as it was. *)
Theorem unmerged_branch_is_kept (w : World) (brName : string)
    (rsc : option ReplicationStatusController)
    (trackedBranches : gmap string BranchConfig)
    (branchSpec cwbCs : option CommitSpec) (headRef : DoltRef)
    (branchHead cwbHead : Commit) :
  let branchRef := NewBranchRef brName in
  let opts := {| Force := false; Remote := false |} in
  HasRef w branchRef = Ok true →
  GetBranches w = Ok trackedBranches →
  trackedBranches !! GetPath branchRef = None →
  NewCommitSpec (GetPath branchRef) = (branchSpec, None) →
  Resolve w Ddb branchSpec None = Ok branchHead →
  NewCommitSpec "HEAD" = (cwbCs, None) →
  CWBHeadRef w = Ok headRef →
  Resolve w Ddb cwbCs (Some headRef) = Ok cwbHead →
  CanFastForwardTo w branchHead cwbHead = Ok false →
  DeleteBranchOnDB w branchRef opts rsc = (w, Some ErrUnmergedBranch) ∧
  (ref_Equals headRef branchRef = false →
   DeleteBranch w brName opts rsc = (w, Some ErrUnmergedBranch)).
Proof.
  intros branchRef opts Hhas Htracked Hnone Hspec Hbranch Hhead Hcwb Hres Hff.
  assert (validateBranchMergedIntoCurrentWorkingBranch w branchRef
          = Some ErrUnmergedBranch) as Hverdict.
  { rewrite (validate_working_branch_resolved w branchRef branchSpec cwbCs headRef
               branchHead cwbHead) by done.
    by rewrite Hff. }
  assert (DeleteBranchOnDB w branchRef opts rsc = (w, Some ErrUnmergedBranch)) as Hdel.
  { unfold DeleteBranchOnDB. rewrite Hhas. simpl. by rewrite Htracked, Hnone, Hverdict. }
  split; [exact Hdel|].
  intros Hne. unfold DeleteBranch. simpl. fold branchRef. by rewrite Hcwb, Hne.
Qed.

(** X19: [CreateBranchWithStartPt] reports every failure of the creation
    as a new "fatal: ..." error made by [fmt.Errorf], never as the error
    it got, and does not add the branch-control admin then; the texts for
    an existing branch and for an invalid name name the branch.  When the
    creation succeeds its outcome is that of [AddAdminForContext] for the
    new branch. *)
Theorem creation_failures_are_reported (w w1 : World) (newBranch startPt : string)
    (force : bool) (rsc : option ReplicationStatusController) :
  (∀ err,
     createBranch w newBranch startPt force rsc = (w1, Some err) →
     ∃ text,
       CreateBranchWithStartPt w newBranch startPt force rsc = (w1, Some (Errorf text)) ∧
       String.prefix "fatal: " text = true ∧
       (err = ErrAlreadyExists →
        text = "fatal: A branch named '" +:+ newBranch +:+ "' already exists.") ∧
       (err = ErrInvBranchName →
        text = "fatal: '" +:+ newBranch +:+ "' is an invalid branch name.")) ∧
  (createBranch w newBranch startPt force rsc = (w1, None) →
   CreateBranchWithStartPt w newBranch startPt force rsc
   = AddAdminForContext w1 newBranch).
Proof.
  split.
  - intros err Hcreate. unfold CreateBranchWithStartPt. rewrite Hcreate.
    destruct (decide (err = ErrAlreadyExists)) as [->|Hne1].
    { rewrite bool_decide_eq_true_2 by done. eexists. by repeat split. }
    rewrite (bool_decide_eq_false_2 _ Hne1).
    destruct (decide (err = ErrInvBranchName)) as [->|Hne2].
    { rewrite bool_decide_eq_true_2 by done. eexists. by repeat split. }
    rewrite (bool_decide_eq_false_2 _ Hne2).
    destruct (bool_decide (err = ErrInvHash) || IsNotACommit err);
      eexists; by repeat split.
  - intros Hcreate. unfold CreateBranchWithStartPt. rewrite Hcreate.
    by destruct (AddAdminForContext w1 newBranch) as [w2 [e|]].
Qed.

(** X20: [MaybeGetCommit] returns an error only if the current head
    cannot be read or if resolving fails with an error that is neither
    [ErrHashNotFound] itself nor (possibly wrapped) [ErrBranchNotFound].
    A spec that does not parse, a branch not found and a hash not found
    all give no commit and no error; a wrapped [ErrHashNotFound] is
    returned. *)
Theorem MaybeGetCommit_outcomes (w : World) (str : string) :
  (∀ cs e, NewCommitSpec str = (cs, Some e) → MaybeGetCommit w str = (None, None)) ∧
  (∀ cs e, NewCommitSpec str = (cs, None) → CWBHeadRef w = Err e →
           MaybeGetCommit w str = (None, Some e)) ∧
  (∀ cs headRef,
     NewCommitSpec str = (cs, None) →
     CWBHeadRef w = Ok headRef →
     (∀ cm, Resolve w Ddb cs (Some headRef) = Ok cm →
            MaybeGetCommit w str = (Some cm, None)) ∧
     (∀ e, Resolve w Ddb cs (Some headRef) = Err e →
           MaybeGetCommit w str =
           if errors_Is e ErrBranchNotFound || bool_decide (e = ErrHashNotFound)
           then (None, None) else (None, Some e)) ∧
     (∀ text, Resolve w Ddb cs (Some headRef) = Err (Wrapping text ErrBranchNotFound) →
              MaybeGetCommit w str = (None, None)) ∧
     (∀ text, Resolve w Ddb cs (Some headRef) = Err (Wrapping text ErrHashNotFound) →
              MaybeGetCommit w str = (None, Some (Wrapping text ErrHashNotFound)))) ∧
  (∀ cm e, MaybeGetCommit w str ≠ (Some cm, Some e)).
Proof.
  assert (Herr : ∀ cs headRef e,
    NewCommitSpec str = (cs, None) → CWBHeadRef w = Ok headRef →
    Resolve w Ddb cs (Some headRef) = Err e →
    MaybeGetCommit w str =
    if errors_Is e ErrBranchNotFound || bool_decide (e = ErrHashNotFound)
    then (None, None) else (None, Some e)).
  { intros cs headRef e Hspec Hhead Hres. unfold MaybeGetCommit.
    rewrite Hspec, Hhead, Hres.
    destruct (errors_Is e ErrBranchNotFound) eqn:Hbnf; [done|]. simpl.
    destruct (bool_decide (e = ErrHashNotFound)); [done|]. simpl.
    case_bool_decide as Heq; [|done].
    subst e. by rewrite errors_Is_refl in Hbnf. }
  split; [|split; [|split]].
  - intros cs e Hspec. unfold MaybeGetCommit. by rewrite Hspec.
  - intros cs e Hspec Hhead. unfold MaybeGetCommit. by rewrite Hspec, Hhead.
  - intros cs headRef Hspec Hhead. split; [|split; [|split]].
    + intros cm Hres. unfold MaybeGetCommit. by rewrite Hspec, Hhead, Hres.
    + intros e. by apply Herr.
    + intros text Hres. by rewrite (Herr _ _ _ Hspec Hhead Hres).
    + intros text Hres. by rewrite (Herr _ _ _ Hspec Hhead Hres).
  - intros cm e. unfold MaybeGetCommit.
    destruct (NewCommitSpec str) as [cs [e0|]]; [done|].
    destruct (CWBHeadRef w) as [headRef|e1]; [|done].
    destruct (Resolve w Ddb cs (Some headRef)) as [cm'|e2]; [done|].
    by repeat case_match.
Qed.

End ActionsFacts.

(** ** Runs in the small world *)

(** A run of X11: "feature" exists, so nothing is written over it. *)
Lemma no_overwrite_without_force_witness :
  @HasRef test_dolt test_world "feature" = Ok true ∧
  @CreateBranchOnDB test_dolt test_world "feature" "main" false None None
  = (test_world, Some ErrAlreadyExists) ∧
  (∃ e, @RenameBranch test_dolt test_world "old" "feature" false None
        = (test_world, Some e)) ∧
  (∃ e, @CreateBranchWithStartPt test_dolt test_world "feature" "main" false None
        = (test_world, Some e)).
Proof.
  assert (@HasRef test_dolt test_world "feature" = Ok true) as Hnew
    by (vm_compute; reflexivity).
  destruct (@no_overwrite_without_force test_dolt test_world "old" "feature" "main"
              None None Hnew) as (_ & _ & Hrename & Hcreate & _ & Hstart).
  split; [exact Hnew|]. split; [exact Hcreate|]. split; [exact Hrename|exact Hstart].
Defined.

(** A run of X12: copying "main" to the new name "topic" succeeds, so the
    checks had passed. *)
Lemma branch_written_only_after_checks_witness :
  ∃ w',
    @CopyBranchOnDB test_dolt test_world "main" "topic" false None = (w', None) ∧
    @HasRef test_dolt test_world "main" = Ok true ∧
    @IsValidUserBranchName test_dolt "topic" = true ∧
    @HasRef test_dolt w' "topic" = Ok true.
Proof.
  eexists. split; [vm_compute; reflexivity|].
  destruct (proj1 (@branch_written_only_after_checks test_dolt test_world _ "topic"
                     false None None) "main" eq_refl)
    as [[_ [e He]]|(Hold & _ & Hvalid & _)]; [discriminate He|].
  split; [exact Hold|]. split; [exact Hvalid|]. vm_compute. reflexivity.
Defined.

(** A run of X13: there is no branch "ghost" to rename, even with force. *)
Lemma missing_source_is_reported_witness :
  @HasRef test_dolt test_world "ghost" = Ok false ∧
  @HasRef test_dolt test_world "main" = Ok true ∧
  @RenameBranch test_dolt test_world "ghost" "main" true None
  = (test_world, Some ErrBranchNotFound).
Proof.
  assert (@HasRef test_dolt test_world "ghost" = Ok false) as Hold
    by (vm_compute; reflexivity).
  assert (@HasRef test_dolt test_world "main" = Ok true) as Hnew
    by (vm_compute; reflexivity).
  split; [exact Hold|]. split; [exact Hnew|].
  exact (proj2 (proj2 (@missing_source_is_reported test_dolt test_world "ghost" "main"
                         true true None Hold Hnew))).
Defined.

(** A run of X14: "main" is checked out. *)
Lemma checked_out_branch_is_kept_witness :
  @CWBHeadRef test_dolt test_world = Ok "main" ∧
  @ref_Equals test_dolt "main" (@NewBranchRef test_dolt "main") = true ∧
  @DeleteBranch test_dolt test_world "main" {| Force := true; Remote := false |} None
  = (test_world, Some ErrCOBranchDelete).
Proof.
  assert (@CWBHeadRef test_dolt test_world = Ok "main") as Hhead by reflexivity.
  assert (@ref_Equals test_dolt "main" (@NewBranchRef test_dolt "main") = true) as Heq
    by (vm_compute; reflexivity).
  split; [exact Hhead|]. split; [exact Heq|].
  exact (proj1 (@checked_out_branch_is_kept test_dolt test_world "main"
                  {| Force := true; Remote := false |} None "main" eq_refl Hhead Heq)).
Defined.

(** A run of X15: the merged branch "old" is deleted without force. *)
Lemma delete_only_after_checks_witness :
  ∃ w',
    @DeleteBranchOnDB test_dolt test_world "old" {| Force := false; Remote := false |} None
    = (w', None) ∧
    @HasRef test_dolt test_world "old" = Ok true ∧
    @HasRef test_dolt w' "old" = Ok false ∧
    @validateBranchMergedIntoCurrentWorkingBranch test_dolt test_world "old" = None.
Proof.
  eexists. split; [vm_compute; reflexivity|].
  destruct (@delete_only_after_checks test_dolt test_world _ "old"
              {| Force := false; Remote := false |} None None eq_refl)
    as [[_ [e He]]|[Hhas Hwhy]]; [discriminate He|].
  split; [exact Hhas|]. split; [vm_compute; reflexivity|].
  destruct Hwhy as [Hf|[Hr|(tracked & Htracked & Hmerged)]];
    [discriminate Hf|discriminate Hr|].
  injection Htracked as <-. exact Hmerged.
Defined.

(** A run of X16: "feature" is ahead of HEAD, "old" is behind it. *)
Lemma merged_into_working_branch_verdict_witness :
  @validateBranchMergedIntoCurrentWorkingBranch test_dolt test_world "feature"
  = Some ErrUnmergedBranch ∧
  @validateBranchMergedIntoCurrentWorkingBranch test_dolt test_world "old" = None ∧
  @validateBranchMergedIntoCurrentWorkingBranch test_dolt test_world "main" = None.
Proof.
  split; [|split].
  - apply (@merged_into_working_branch_verdict test_dolt test_world "feature"
             (Some "feature") (Some "HEAD") "main" 3 2);
      vm_compute; reflexivity.
  - apply (@merged_into_working_branch_verdict test_dolt test_world "old"
             (Some "old") (Some "HEAD") "main" 1 2); try (vm_compute; reflexivity).
    left. vm_compute. reflexivity.
  - apply (@merged_into_working_branch_verdict test_dolt test_world "main"
             (Some "main") (Some "HEAD") "main" 2 2); try (vm_compute; reflexivity).
    right. eexists. split; vm_compute; reflexivity.
Defined.

(** A run of X17: no remote "nowhere"; on "origin", "old" is behind and
    "feature" is up to date. *)
Lemma merged_into_upstream_verdict_witness :
  @GetRemotes test_dolt test_world = Ok {["origin" := tt]} ∧
  @validateBranchMergedIntoUpstream test_dolt test_world "old" "nowhere"
  = Some (Errorf "remote nowhere not found") ∧
  @validateBranchMergedIntoUpstream test_dolt test_world "old" "origin" = None ∧
  @validateBranchMergedIntoUpstream test_dolt test_world "feature" "origin" = None.
Proof.
  assert (@GetRemotes test_dolt test_world = Ok {["origin" := tt]}) as Hremotes
    by reflexivity.
  destruct (@merged_into_upstream_verdict test_dolt test_world "old" "nowhere" _ Hremotes)
    as [Hmissing _].
  split; [exact Hremotes|]. split; [apply Hmissing; vm_compute; reflexivity|]. split.
  - apply (proj2 (@merged_into_upstream_verdict test_dolt test_world "old" "origin" _
                    Hremotes) tt false (Some "old") 2 1);
      try (vm_compute; reflexivity).
    left. vm_compute. reflexivity.
  - apply (proj2 (@merged_into_upstream_verdict test_dolt test_world "feature" "origin" _
                    Hremotes) tt false (Some "feature") 3 3);
      try (vm_compute; reflexivity).
    right. eexists. split; vm_compute; reflexivity.
Defined.

(** A run of X18: "feature" is not merged into "main". *)
Lemma unmerged_branch_is_kept_witness :
  @HasRef test_dolt test_world "feature" = Ok true ∧
  @CanFastForwardTo test_dolt test_world 3 2 = Ok false ∧
  @DeleteBranchOnDB test_dolt test_world "feature" {| Force := false; Remote := false |} None
  = (test_world, Some ErrUnmergedBranch) ∧
  @DeleteBranch test_dolt test_world "feature" {| Force := false; Remote := false |} None
  = (test_world, Some ErrUnmergedBranch).
Proof.
  assert (@HasRef test_dolt test_world "feature" = Ok true) as Hhas
    by (vm_compute; reflexivity).
  assert (@CanFastForwardTo test_dolt test_world 3 2 = Ok false) as Hff
    by (vm_compute; reflexivity).
  destruct (@unmerged_branch_is_kept test_dolt test_world "feature" None ∅
              (Some "feature") (Some "HEAD") "main" 3 2)
    as [Hdb Hlocal]; try (vm_compute; reflexivity).
  split; [exact Hhas|]. split; [exact Hff|]. split; [exact Hdb|].
  apply Hlocal. vm_compute. reflexivity.
Defined.

(** A run of X19: creating "feature" again, and creating "topic". *)
Lemma creation_failures_are_reported_witness :
  @createBranch test_dolt test_world "feature" "main" false None
  = (test_world, Some ErrAlreadyExists) ∧
  @CreateBranchWithStartPt test_dolt test_world "feature" "main" false None
  = (test_world, Some (Errorf "fatal: A branch named 'feature' already exists.")) ∧
  ∃ w1,
    @createBranch test_dolt test_world "topic" "main" false None = (w1, None) ∧
    @CreateBranchWithStartPt test_dolt test_world "topic" "main" false None
    = @AddAdminForContext test_dolt w1 "topic".
Proof.
  assert (@createBranch test_dolt test_world "feature" "main" false None
          = (test_world, Some ErrAlreadyExists)) as Hfail by (vm_compute; reflexivity).
  split; [exact Hfail|]. split.
  - destruct (proj1 (@creation_failures_are_reported test_dolt test_world test_world
                       "feature" "main" false None) _ Hfail)
      as (text & Hcall & _ & Htext & _).
    rewrite Hcall, (Htext eq_refl). reflexivity.
  - eexists. split; [vm_compute; reflexivity|].
    apply (proj2 (@creation_failures_are_reported test_dolt test_world _
                    "topic" "main" false None)).
    vm_compute. reflexivity.
Defined.

(** A run of X20: a missing branch and an empty spec give nothing, "main"
    gives its commit. *)
Lemma MaybeGetCommit_outcomes_witness :
  @NewCommitSpec test_dolt "" = (None, Some ErrInvHash) ∧
  @MaybeGetCommit test_dolt test_world "" = (None, None) ∧
  @NewCommitSpec test_dolt "ghost" = (Some "ghost", None) ∧
  @CWBHeadRef test_dolt test_world = Ok "main" ∧
  @Resolve test_dolt test_world true (Some "ghost") (Some "main") = Err ErrBranchNotFound ∧
  @MaybeGetCommit test_dolt test_world "ghost" = (None, None) ∧
  @MaybeGetCommit test_dolt test_world "main" = (Some 2, None).
Proof.
  assert (@NewCommitSpec test_dolt "" = (None, Some ErrInvHash)) as H0 by reflexivity.
  assert (@NewCommitSpec test_dolt "ghost" = (Some "ghost", None)) as H1 by reflexivity.
  assert (@NewCommitSpec test_dolt "main" = (Some "main", None)) as H2 by reflexivity.
  assert (@CWBHeadRef test_dolt test_world = Ok "main") as Hhead by reflexivity.
  assert (@Resolve test_dolt test_world true (Some "ghost") (Some "main")
          = Err ErrBranchNotFound) as Hres by (vm_compute; reflexivity).
  split; [exact H0|]. split.
  { exact (proj1 (@MaybeGetCommit_outcomes test_dolt test_world "") _ _ H0). }
  split; [exact H1|]. split; [exact Hhead|]. split; [exact Hres|]. split.
  - destruct (proj1 (proj2 (proj2 (@MaybeGetCommit_outcomes test_dolt test_world "ghost")))
                _ _ H1 Hhead) as (_ & Herr & _).
    rewrite (Herr _ Hres). reflexivity.
  - destruct (proj1 (proj2 (proj2 (@MaybeGetCommit_outcomes test_dolt test_world "main")))
                _ _ H2 Hhead) as (Hok & _).
    apply Hok. vm_compute. reflexivity.
Defined.
